(** * bootstrap.py: a shallow embedding and its verified properties

    The script scaffolds a Python package: it resolves option values lazily
    on an [argparse] namespace, renders fixed templates and prints a help
    listing.  This development embeds the functions [str_lower],
    [hyphenated], [snake_case], [require_opt], [derive_opt], [columnize],
    [display_help] and [create_license_md] and proves what the
    specification says about them.

    Modelling conventions.
    - A Python string is a [string]: a sequence of 8-bit characters, which is
      what [str] is under Python 2 and what it is under Python 3 for ASCII
      text.
    - [str.lower] follows the Unicode case mapping of the Python runtime,
      which is not part of the script.  On ASCII text it maps the letters
      [A]..[Z] to [a]..[z] and leaves every other character alone: that is
      [Str.ascii_lower], and [snake_case] and [hyphenated] on a [string]
      are the script's functions on ASCII text.  For arbitrary text the
      module [Unicode] gives the two functions over sequences of code
      points with [str.lower] as a parameter.
    - The namespace [opts] is one mutable object that every function
      receives by reference; it lives in the state as a finite map from
      attribute names to values.
    - Console, file system, log and process exit are explicit: a computation
      is a function from a [world] to an outcome and a new [world]. *)

From Stdlib Require Import Ascii String List Arith Lia Bool DecimalString.
From Stdlib Require Import ZArith Permutation.
From stdpp Require Import base gmap strings list.

(** ** Strings *)

Module Str.

(** [c.lower()] for one ASCII character: [A]..[Z] (65..90) move up by
    32. *)
Definition ascii_lower_char (c : ascii) : ascii :=
  let n := nat_of_ascii c in
  if Nat.leb 65 n && Nat.leb n 90 then ascii_of_nat (n + 32) else c.

(** [s.lower()] for ASCII text [s]. *)
Fixpoint ascii_lower (s : string) : string :=
  match s with
  | EmptyString => EmptyString
  | String c s' => String (ascii_lower_char c) (ascii_lower s')
  end.

(** Membership of a character in a bracket expression such as [[ _]]. *)
Fixpoint in_class (cls : list ascii) (c : ascii) : bool :=
  match cls with
  | [] => false
  | d :: cls' => Ascii.eqb c d || in_class cls' c
  end.

(** [re.sub(pattern, repl, s)] when [pattern] is one bracket expression
    listing the characters [cls]: scanning from the left, every character
    of the class is a match of length one and is replaced by [repl]. *)
Fixpoint re_sub_class (cls : list ascii) (repl : string) (s : string) : string :=
  match s with
  | EmptyString => EmptyString
  | String c s' =>
      if in_class cls c
      then String.append repl (re_sub_class cls repl s')
      else String c (re_sub_class cls repl s')
  end.

(** [x in s] for strings: [x] occurs in [s] as a contiguous block. *)
Fixpoint contains (x s : string) : bool :=
  String.prefix x s ||
  match s with
  | EmptyString => false
  | String _ s' => contains x s'
  end.

(** A string made of [n] copies of [c]. *)
Fixpoint repeat_char (c : ascii) (n : nat) : string :=
  match n with
  | O => EmptyString
  | S n' => String c (repeat_char c n')
  end.

(** The string of the images of the characters of [s] under [f]. *)
Fixpoint map (f : ascii -> ascii) (s : string) : string :=
  match s with
  | EmptyString => EmptyString
  | String c s' => String (f c) (map f s')
  end.

(** Every character of [s] satisfies [p]. *)
Fixpoint forallb (p : ascii -> bool) (s : string) : bool :=
  match s with
  | EmptyString => true
  | String c s' => p c && forallb p s'
  end.

(** Some character of [s] satisfies [p]. *)
Fixpoint existsb (p : ascii -> bool) (s : string) : bool :=
  match s with
  | EmptyString => false
  | String c s' => p c || existsb p s'
  end.

(** [s.replace(old, new)] for a non-empty [old], reading [s] from the left
    with [skip] characters of a match still to be passed over: where [old]
    starts, [new] is put out and the scan resumes after the match. *)
Fixpoint replace_from (old new : string) (skip : nat) (s : string) : string :=
  match s with
  | EmptyString => EmptyString
  | String c s' =>
      match skip with
      | S k => replace_from old new k s'
      | O =>
          if String.prefix old s
          then new +:+ replace_from old new (String.length old - 1) s'
          else String c (replace_from old new 0 s')
      end
  end.

(** [s.replace('', new)]: [new] before every character and at the end. *)
Fixpoint interleave (new s : string) : string :=
  match s with
  | EmptyString => new
  | String c s' => new +:+ String c (interleave new s')
  end.

(** [s.replace(old, new)] *)
Definition replace (old new s : string) : string :=
  match old with
  | EmptyString => interleave new s
  | String _ _ => replace_from old new 0 s
  end.

(** [x] occurs in [s]: the declarative reading of [contains]. *)
Definition occurs (x s : string) : Prop := exists a b, s = a +:+ x +:+ b.

(** The character [k] is one of the characters of [s]. *)
Definition mem (k : ascii) (s : string) : bool := existsb (Ascii.eqb k) s.

End Str.

(** [str_lower(s)], the argparse [type=] callback, on ASCII text. *)
Definition str_lower (s : string) : string := Str.ascii_lower s.

(** [hyphenated(s)]: [re.sub('[ _]', '-', s.lower())], on ASCII text. *)
Definition hyphenated (s : string) : string :=
  Str.re_sub_class [" "; "_"]%char "-" (Str.ascii_lower s).

(** [snake_case(s)]: [re.sub('[ -]', '_', s.lower())], on ASCII text. *)
Definition snake_case (s : string) : string :=
  Str.re_sub_class [" "; "-"]%char "_" (Str.ascii_lower s).

(** *** Character classes used by the statements *)

Definition is_upper (c : ascii) : bool :=
  let n := nat_of_ascii c in Nat.leb 65 n && Nat.leb n 90.

Definition is_lower (c : ascii) : bool :=
  let n := nat_of_ascii c in Nat.leb 97 n && Nat.leb n 122.

Definition is_digit (c : ascii) : bool :=
  let n := nat_of_ascii c in Nat.leb 48 n && Nat.leb n 57.

(** The expected image of one character under [snake_case]. *)
Definition snake_char (c : ascii) : ascii :=
  if Ascii.eqb c " "%char || Ascii.eqb c "-"%char then "_"%char
  else Str.ascii_lower_char c.

(** The expected image of one character under [hyphenated]. *)
Definition hyphen_char (c : ascii) : ascii :=
  if Ascii.eqb c " "%char || Ascii.eqb c "_"%char then "-"%char
  else Str.ascii_lower_char c.

(** Characters allowed in a snake-case name, in a hyphenated name, and in a
    name written with letters, digits and the three separators. *)
Definition snake_ok (c : ascii) : bool :=
  is_lower c || is_digit c || Ascii.eqb c "_"%char.

Definition hyphen_ok (c : ascii) : bool :=
  is_lower c || is_digit c || Ascii.eqb c "-"%char.

Definition is_separator (c : ascii) : bool :=
  Ascii.eqb c " "%char || Ascii.eqb c "_"%char || Ascii.eqb c "-"%char.

Definition name_char (c : ascii) : bool :=
  is_upper c || is_lower c || is_digit c || is_separator c.

(** The ASCII characters are the first 128. *)
Definition is_ascii (c : ascii) : bool := Nat.ltb (nat_of_ascii c) 128.

(** ** The name transforms on arbitrary text

    A Python 3 string is a sequence of Unicode code points, and [s.lower()]
    applies the case mapping of the Python runtime: it lowers letters
    outside ASCII too, it can change the length of a string, and the image
    of a letter can depend on its neighbours.  None of this is in the
    script, so over code points [str.lower] is a parameter [lower] of the
    two functions. *)

Module Unicode.

Definition codepoint := N.

(** A Python 3 [str]. *)
Definition str := list codepoint.

(** The code points of ASCII text. *)
Definition of_string (s : string) : str := N_of_ascii <$> list_ascii_of_string s.

Definition space : codepoint := 32%N.
Definition hyphen : codepoint := 45%N.
Definition underscore : codepoint := 95%N.

(** Membership of a code point in a bracket expression such as [[ _]]. *)
Fixpoint in_class (cls : list codepoint) (c : codepoint) : bool :=
  match cls with
  | [] => false
  | d :: cls' => N.eqb c d || in_class cls' c
  end.

(** [re.sub(pattern, repl, s)] when [pattern] is one bracket expression
    listing the code points [cls]. *)
Fixpoint re_sub_class (cls : list codepoint) (repl : str) (s : str) : str :=
  match s with
  | [] => []
  | c :: s' =>
      if in_class cls c
      then repl ++ re_sub_class cls repl s'
      else c :: re_sub_class cls repl s'
  end.

Section Lower.

(** [str.lower] of the Python runtime. *)
Variable lower : str -> str.

(** [hyphenated(s)]: [re.sub('[ _]', '-', s.lower())] *)
Definition hyphenated (s : str) : str :=
  re_sub_class [space; underscore] [hyphen] (lower s).

(** [snake_case(s)]: [re.sub('[ -]', '_', s.lower())] *)
Definition snake_case (s : str) : str :=
  re_sub_class [space; hyphen] [underscore] (lower s).

End Lower.

(** *** What the statements say and assume *)

(** What the substitution of [snake_case] does to one code point, and the
    one of [hyphenated]. *)
Definition to_underscore (c : codepoint) : codepoint :=
  if in_class [space; hyphen] c then underscore else c.

Definition to_hyphen (c : codepoint) : codepoint :=
  if in_class [space; underscore] c then hyphen else c.

(** ASCII text, and [str.lower] on it. *)
Definition is_ascii (s : str) : bool := forallb (fun c => c <? 128)%N s.

Definition is_upper (c : codepoint) : bool := ((65 <=? c) && (c <=? 90))%N.

Definition ascii_lower_char (c : codepoint) : codepoint :=
  if is_upper c then (c + 32)%N else c.

Definition ascii_lower (s : str) : str := ascii_lower_char <$> s.

(** Three facts about [str.lower].  On ASCII text it lowers [A]..[Z] and
    nothing else. *)
Definition lower_on_ascii (lower : str -> str) : Prop :=
  forall s, is_ascii s = true -> lower s = ascii_lower s.

(** Lowering a lowered string changes nothing. *)
Definition lower_idempotent (lower : str -> str) : Prop :=
  forall s, lower (lower s) = lower s.

(** The space, the hyphen and the underscore are neither letters nor
    ignored when the case of a neighbour is decided: exchanging them for
    one another commutes with lowering. *)
Definition is_separator (c : codepoint) : bool :=
  ((c =? space) || (c =? underscore) || (c =? hyphen))%N.

Definition separator_map (f : codepoint -> codepoint) : Prop :=
  forall c, if is_separator c then is_separator (f c) = true else f c = c.

Definition lower_blind_to_separators (lower : str -> str) : Prop :=
  forall f s, separator_map f -> lower (f <$> s) = f <$> lower s.

(** Code points other than the separators that [snake_case] replaces, and
    other than those that [hyphenated] replaces. *)
Definition snake_separated (c : codepoint) : bool :=
  (negb (c =? space) && negb (c =? hyphen))%N.

Definition hyphen_separated (c : codepoint) : bool :=
  (negb (c =? space) && negb (c =? underscore))%N.

(** Code points that are, moreover, not uppercase ASCII letters. *)
Definition snake_plain (c : codepoint) : bool :=
  negb (is_upper c) && snake_separated c.

Definition hyphen_plain (c : codepoint) : bool :=
  negb (is_upper c) && hyphen_separated c.

End Unicode.

(** ** Values, exceptions and the world *)

(** A [datetime] object without time zone, as [datetime.now()] returns. *)
Record datetime := {
  year : nat; month : nat; day : nat;
  hour : nat; minute : nat; second : nat; microsecond : nat
}.

(** The values an attribute of the namespace can hold. *)
Inductive pyval :=
| PNone
| PStr (s : string)
| PBool (b : bool)
| PDateTime (d : datetime).

(** [v is None] *)
Definition is_None (v : pyval) : bool :=
  match v with PNone => true | _ => false end.

(** The exceptions the embedded functions can raise. *)
Inductive exn :=
| SystemExit (code : Z)
| EOFError
| AttributeError
| KeyError
| TypeError
| ValueError
| RequestException.

Inductive outcome (A : Type) :=
| Ok (a : A)
| Raise (e : exn).
Arguments Ok {A} a.
Arguments Raise {A} e.

(** What happens on the console, oldest first: text written to standard
    output, and prompts of [raw_input]/[input]. *)
Inductive event :=
| Wrote (text : string)
| Prompted (text : string).

Record world := {
  opts : gmap string pyval;     (* attributes of the namespace object *)
  stdin : list string;          (* lines that can still be read *)
  console : list event;
  files : gmap string string;   (* path of each file and its content *)
  errlog : list string          (* messages passed to [logger.error] *)
}.

Definition with_opts (f : gmap string pyval -> gmap string pyval) (w : world) : world :=
  {| opts := f (opts w); stdin := stdin w; console := console w;
     files := files w; errlog := errlog w |}.

Definition with_stdin (l : list string) (w : world) : world :=
  {| opts := opts w; stdin := l; console := console w;
     files := files w; errlog := errlog w |}.

Definition emit_all (evs : list event) (w : world) : world :=
  {| opts := opts w; stdin := stdin w; console := console w ++ evs;
     files := files w; errlog := errlog w |}.

Definition emit (e : event) (w : world) : world := emit_all [e] w.

Definition with_files (f : gmap string string -> gmap string string) (w : world) : world :=
  {| opts := opts w; stdin := stdin w; console := console w;
     files := f (files w); errlog := errlog w |}.

Definition with_errlog (msg : string) (w : world) : world :=
  {| opts := opts w; stdin := stdin w; console := console w;
     files := files w; errlog := errlog w ++ [msg] |}.

(** A computation: it reads and changes the world and either returns a
    value or raises; the world it leaves is kept in both cases. *)
Definition M (A : Type) : Type := world -> outcome A * world.

Definition ret {A} (a : A) : M A := fun w => (Ok a, w).

Definition raise {A} (e : exn) : M A := fun w => (Raise e, w).

Definition bind {A B} (m : M A) (k : A -> M B) : M B :=
  fun w =>
    match m w with
    | (Ok a, w') => k a w'
    | (Raise e, w') => (Raise e, w')
    end.

Definition lift {A} (o : outcome A) : M A := fun w => (o, w).

Notation "x <- m ;; k" := (bind m (fun x => k))
  (at level 100, m at next level, right associativity).
Notation "m ;;; k" := (bind m (fun _ => k))
  (at level 100, right associativity).

(** [getattr(opts, name, None)] *)
Definition getattr_or_None (name : string) : M pyval :=
  fun w => (Ok (default PNone (opts w !! name)), w).

(** [getattr(opts, name)] and [opts.name] *)
Definition getattr (name : string) : M pyval :=
  fun w =>
    match opts w !! name with
    | Some v => (Ok v, w)
    | None => (Raise AttributeError, w)
    end.

(** [setattr(opts, name, value)] *)
Definition setattr (name : string) (value : pyval) : M unit :=
  fun w => (Ok tt, with_opts (insert name value) w).

(** [user_input(prompt)]: the prompt is written, then one line is read;
    at end of input [EOFError] is raised. *)
Definition user_input (prompt : string) : M string :=
  fun w =>
    let w' := emit (Prompted prompt) w in
    match stdin w with
    | [] => (Raise EOFError, w')
    | line :: rest => (Ok line, with_stdin rest w')
    end.

(** [print(s)] *)
Definition print (s : string) : M unit :=
  fun w => (Ok tt, emit (Wrote (s +:+ String "010"%char EmptyString)) w).

(** [f.write(text)] on [open(path, 'w')]: the file is replaced. *)
Definition write_file (path text : string) : M unit :=
  fun w => (Ok tt, with_files (insert path text) w).

(** [logger.error(msg)] *)
Definition logger_error (msg : string) : M unit :=
  fun w => (Ok tt, with_errlog msg w).

(** ** The options resolver *)

(** [str], the default of [_type]. *)
Definition py_str_type (s : string) : outcome pyval := Ok (PStr s).

(** [lambda x: x], the default of [transform]. *)
Definition py_identity (v : pyval) : outcome pyval := Ok v.

(** [snake_case] and [hyphenated] as transforms: a value without a
    [lower] method raises [AttributeError]. *)
Definition py_snake_case (v : pyval) : outcome pyval :=
  match v with PStr s => Ok (PStr (snake_case s)) | _ => Raise AttributeError end.

Definition py_hyphenated (v : pyval) : outcome pyval :=
  match v with PStr s => Ok (PStr (hyphenated s)) | _ => Raise AttributeError end.

(** [require_opt(opts, name, _type)] *)
Definition require_opt (name : string) (_type : string -> outcome pyval) : M pyval :=
  cur <- getattr_or_None name ;;
  (if is_None cur then
     let prompt := name +:+ ": " in
     line <- user_input prompt ;;
     value <- lift (_type line) ;;
     setattr name value
   else ret tt) ;;;
  getattr name.

(** [derive_opt(opts, name, derived_from, transform)] *)
Definition derive_opt (name derived_from : string)
    (transform : pyval -> outcome pyval) : M pyval :=
  cur <- getattr_or_None name ;;
  (if is_None cur then
     value <- require_opt derived_from py_str_type ;;
     derived <- lift (transform value) ;;
     setattr name derived
   else ret tt) ;;;
  getattr name.

(** A request made to the resolver, and a run of such requests in order;
    the run stops at the first exception. *)
Inductive call :=
| Require (name : string) (_type : string -> outcome pyval)
| Derive (name derived_from : string) (transform : pyval -> outcome pyval).

Definition run_call (c : call) : M pyval :=
  match c with
  | Require name ty => require_opt name ty
  | Derive name src tr => derive_opt name src tr
  end.

Fixpoint run_calls (cs : list call) : M (list pyval) :=
  match cs with
  | [] => ret []
  | c :: cs' =>
      v <- run_call c ;;
      vs <- run_calls cs' ;;
      ret (v :: vs)
  end.

(** The field [name] holds the value [v], which is not [None]. *)
Definition is_set (w : world) (name : string) (v : pyval) : Prop :=
  opts w !! name = Some v /\ v <> PNone.

(** The field [name] is absent or [None]. *)
Definition is_unset (w : world) (name : string) : Prop :=
  default PNone (opts w !! name) = PNone.

(** How many times [name] was prompted for in a list of events. *)
Definition is_prompt_for (name : string) (e : event) : bool :=
  match e with
  | Prompted text => String.eqb text (name +:+ ": ")
  | Wrote _ => false
  end.

Definition prompts_for (name : string) (evs : list event) : nat :=
  length (filter (fun e => is_prompt_for name e = true) evs).

(** A conversion or transform that never yields [None]: what it stores is
    a set field. *)
Definition never_None {A} (f : A -> outcome pyval) : Prop :=
  forall x, f x <> Ok PNone.

(** A request whose prompt leaves the field it asked for set.
    [require_opt] stores the conversion of the typed line, which must not
    be [None].  [derive_opt] prompts for the source and stores the typed
    line itself there, which is never [None]; only when the derived field
    is its own source is the transform of the line stored over it. *)
Definition stores_value (c : call) : Prop :=
  match c with
  | Require _ ty => forall line, ty line <> Ok PNone
  | Derive name src tr => name = src -> forall line, tr (PStr line) <> Ok PNone
  end.

(** What every resolver step from [w] to the result [r] does: it only adds
    console events, and a field that was set keeps its value and is not
    prompted for. *)
Definition resolver_keeps {A} (w : world) (r : outcome A * world) : Prop :=
  exists evs,
    console r.2 = console w ++ evs /\
    (forall n v, is_set w n v -> prompts_for n evs = 0 /\ is_set r.2 n v).

(** What a resolver step from [w] to the result [r] may do: it only adds
    console events; a field that was set keeps its value and is not
    prompted for; no field is prompted for twice; and a field that was
    prompted for is set afterwards unless the step raised. *)
Definition resolver_step {A} (w : world) (r : outcome A * world) : Prop :=
  exists evs,
    console r.2 = console w ++ evs /\
    (forall n v, is_set w n v -> prompts_for n evs = 0 /\ is_set r.2 n v) /\
    (forall n, prompts_for n evs <= 1) /\
    (forall n, prompts_for n evs = 1 ->
               (exists v, is_set r.2 n v) \/ exists e, r.1 = Raise e).

(** ** Sample worlds *)

(** Nothing resolved yet; the user will type the package name. *)
Definition w_fresh : world :=
  {| opts := ∅; stdin := ["My Cool App"]; console := [];
     files := ∅; errlog := [] |}.

(** The package name came from the command line. *)
Definition w_named : world :=
  {| opts := {[ "package" := PStr "My Cool App" ]}; stdin := []; console := [];
     files := ∅; errlog := [] |}.

(** The snake-case name has been derived already. *)
Definition w_derived : world :=
  {| opts := <[ "package_snakecase" := PStr "my_cool_app" ]>
               {[ "package" := PStr "My Cool App" ]};
     stdin := []; console := []; files := ∅; errlog := [] |}.

(** Three requests as the renderers make them: the setup script asks for
    the snake-case name, the README for the package name and for the
    hyphenated name. *)
Definition sample_calls : list call :=
  [ Derive "package_snakecase" "package" py_snake_case;
    Require "package" py_str_type;
    Derive "package_hyphenated" "package" py_hyphenated ].

(** The same requests after one with the default transform of
    [derive_opt], the identity. *)
Definition sample_calls_identity : list call :=
  Derive "module" "package" py_identity :: sample_calls.

(** A conversion that answers [None] whatever was typed, and a world in
    which the user types two lines. *)
Definition sample_to_None (s : string) : outcome pyval := Ok PNone.

Definition w_two_lines : world :=
  {| opts := ∅; stdin := ["first"; "second"]; console := [];
     files := ∅; errlog := [] |}.

(** A conversion that can fail, as a caller of [require_opt] may pass for
    [_type]: it accepts the answers [yes] and [no] only. *)
Definition sample_yes_no (s : string) : outcome pyval :=
  if String.eqb s "yes" then Ok (PBool true)
  else if String.eqb s "no" then Ok (PBool false)
  else Raise ValueError.

(** The user answers a yes/no question with [maybe]. *)
Definition w_maybe : world :=
  {| opts := ∅; stdin := ["maybe"; "yes"]; console := [];
     files := ∅; errlog := [] |}.

(** The package name was set to [True] by mistake. *)
Definition w_bad_package : world :=
  {| opts := {[ "package" := PBool true ]}; stdin := []; console := [];
     files := ∅; errlog := [] |}.

(** ** The help listing *)

(** [l[a:b]] and [l[a:]] for indices that are not negative. *)
Definition py_slice {A} (a b : nat) (l : list A) : list A := drop a (take b l).

Definition py_slice_from {A} (a : nat) (l : list A) : list A := drop a l.

(** [zip_longest(l1, l2, l3)]: as many rows as the longest list has items;
    a list that has run out contributes [None]. *)
Definition zip_longest {A} (l1 l2 l3 : list A) : list (option A * option A * option A) :=
  map (fun i => (l1 !! i, l2 !! i, l3 !! i))
      (seq 0 (Nat.max (length l1) (Nat.max (length l2) (length l3)))).

(** The format field [{:<20s}] and its like: the text, then spaces up to
    the width; a longer text is not cut. *)
Definition ljust (width : nat) (s : string) : string :=
  s +:+ Str.repeat_char " "%char (width - String.length s).

(** ['{:<20s} {:<20s} {}'.format(...)] on a row whose [None] entries are
    replaced by the empty string. *)
Definition format_row (row : option string * option string * option string) : string :=
  let '(a, b, c) := row in
  ljust 20 (default "" a) +:+ " " +:+ ljust 20 (default "" b) +:+ " " +:+ default "" c.

(** The three slices [lst1], [lst2], [lst3] of [columnize];
    [int(len(lst) / 3)] is the quotient of the length by 3, rounded down. *)
Definition columns (lst : list string) : list string * list string * list string :=
  let split := length lst / 3 in
  let lst1 := py_slice 0 split lst in
  let lst2 := py_slice split (split + split) lst in
  let lst3 := py_slice_from (split + split) lst in
  (lst1, lst2, lst3).

(** The rows that [columnize] zips, before they are formatted. *)
Definition columnize_rows (lst : list string)
  : list (option string * option string * option string) :=
  let '(lst1, lst2, lst3) := columns lst in zip_longest lst1 lst2 lst3.

(** [columnize(lst)]: the generator's output, in order. *)
Definition columnize (lst : list string) : list string :=
  map format_row (columnize_rows lst).

(** The items that a list of rows holds, row by row. *)
Definition row_items (rows : list (option string * option string * option string))
  : list string :=
  concat (map (fun row : option string * option string * option string =>
                 option_list row.1.1 ++ option_list row.1.2 ++ option_list row.2)
              rows).

(** [field] shows [content] left-justified in [width] characters. *)
Definition left_justified (width : nat) (content field : string) : Prop :=
  (exists k, field = content +:+ Str.repeat_char " "%char k) /\
  String.length field = Nat.max width (String.length content).

Definition SUPPORTED_LICENSES : list string :=
  [ "afl-3.0"; "agpl-3.0"; "apache-2.0"; "artistic-2.0"; "bsd-2-clause";
    "bsd-3-clause-clear"; "bsd-3-clause"; "bsl-1.0"; "cc-by-4.0";
    "cc-by-sa-4.0"; "cc0-1.0"; "ecl-2.0"; "epl-1.0"; "epl-2.0"; "eupl-1.1";
    "eupl-1.2"; "gpl-2.0"; "gpl-3.0"; "isc"; "lgpl-2.1"; "lgpl-3.0";
    "lppl-1.3c"; "mit"; "mpl-2.0"; "ms-pl"; "ms-rl"; "ncsa"; "ofl-1.1";
    "osl-3.0"; "postgresql"; "unlicense"; "upl-1.0"; "wtfpl"; "zlib" ].

(** The argument parser, as far as [display_help] uses it: the text that
    [print_help] writes. *)
Record parser := { format_help : string }.

(** [parser.print_help()] *)
Definition print_help (p : parser) : M unit :=
  fun w => (Ok tt, emit (Wrote (format_help p)) w).

(** [for row in rows: print(row)] *)
Fixpoint print_all (rows : list string) : M unit :=
  match rows with
  | [] => ret tt
  | row :: rows' => print row ;;; print_all rows'
  end.

(** The double quote. *)
Definition dquote : string := String "034"%char EmptyString.

(** [display_help(parser, help_target)] *)
Definition display_help (p : parser) (help_target : string) : M unit :=
  (if String.eqb help_target "" then
     print_help p
   else if Str.contains "license" help_target then
     print "Supported licenses:" ;;;
     print_all (columnize SUPPORTED_LICENSES) ;;;
     print "If no value is provided, MIT license is used."
   else
     print ("No help available for " +:+ dquote +:+ help_target +:+ dquote)) ;;;
  raise (SystemExit 0).

(** The console output of a list of printed lines. *)
Definition printed (lines : list string) : list event :=
  map (fun l => Wrote (l +:+ String "010"%char EmptyString)) lines.

(** ** The license renderer *)

(** A number in decimal, and a text filled with zeros on the left. *)
Definition decimal (n : nat) : string := NilZero.string_of_uint (Nat.to_uint n).

Definition zfill (width : nat) (s : string) : string :=
  Str.repeat_char "0"%char (width - String.length s) +:+ s.

(** [str(d)] for a [datetime] without time zone. *)
Definition datetime_str (d : datetime) : string :=
  zfill 4 (decimal (year d)) +:+ "-" +:+ zfill 2 (decimal (month d)) +:+ "-" +:+
  zfill 2 (decimal (day d)) +:+ " " +:+ zfill 2 (decimal (hour d)) +:+ ":" +:+
  zfill 2 (decimal (minute d)) +:+ ":" +:+ zfill 2 (decimal (second d)) +:+
  (if Nat.eqb (microsecond d) 0 then "" else "." +:+ zfill 6 (decimal (microsecond d))).

(** [d.strftime('%Y')]: the year in decimal.  Years below 1000 are padded
    on some platforms and not on others; from 1000 on, which covers every
    year [datetime.now()] returns, the text is the same everywhere. *)
Definition strftime_Y (d : datetime) : string := decimal (year d).

(** ['{}'.format(v)] *)
Definition py_format (v : pyval) : string :=
  match v with
  | PNone => "None"
  | PStr s => s
  | PBool true => "True"
  | PBool false => "False"
  | PDateTime d => datetime_str d
  end.

(** The answer of [requests.get], as far as it is used. *)
Record response := { status_code : Z; text : string }.

(** A decoded JSON document: a string, an object, or anything else
    (number, array, boolean, null), which can neither be indexed by a key
    nor has a [replace] method. *)
#[warnings="-register-all"] Inductive json :=
| JStr (s : string)
| JObj (members : gmap string json)
| JOther.

(** [data[key]] *)
Definition json_getitem (key : string) (data : json) : outcome json :=
  match data with
  | JObj members =>
      match members !! key with
      | Some v => Ok v
      | None => Raise KeyError
      end
  | _ => Raise TypeError
  end.

(** The address the license text is fetched from. *)
Definition license_url (license : pyval) : string :=
  "https://licenseapi.herokuapp.com/licenses/" +:+ py_format license.

Section License.

(** The two library calls the renderer makes are parameters: what
    [requests.get] answers for an address, and what [json.loads] decodes a
    text to. *)
Variable requests_get : string -> outcome response.
Variable json_loads : string -> outcome json.

(** [create_license_md(opts)] *)
Definition create_license_md : M unit :=
  license <- getattr "license" ;;
  resp <- lift (requests_get (license_url license)) ;;
  (if negb (Z.eqb (status_code resp) 200) then
     logger_error "Unable to download license text" ;;;
     raise (SystemExit 1)
   else ret tt) ;;;
  data <- lift (json_loads (text resp)) ;;
  item <- lift (json_getitem "text" data) ;;
  body <- match item with
          | JStr s => ret s
          | _ => raise AttributeError
          end ;;
  now <- getattr "now" ;;
  y <- match now with
       | PDateTime d => ret (strftime_Y d)
       | _ => raise AttributeError
       end ;;
  let text1 := Str.replace "[year]" y body in
  author_name <- getattr "author_name" ;;
  fullname <- match author_name with
              | PStr s => ret s
              | _ => raise TypeError
              end ;;
  let text2 := Str.replace "[fullname]" fullname text1 in
  write_file "LICENSE" text2.

End License.

(** *** A sample exchange with the license service *)

Definition sample_body : string :=
  "{" +:+ dquote +:+ "text" +:+ dquote +:+ ": " +:+ dquote +:+
  "Copyright (c) [year] [fullname]" +:+ dquote +:+ "}".

(** The service knows the MIT license and answers 404 otherwise. *)
Definition sample_requests_get (url : string) : outcome response :=
  if String.eqb url "https://licenseapi.herokuapp.com/licenses/mit"
  then Ok {| status_code := 200; text := sample_body |}
  else Ok {| status_code := 404; text := "Not Found" |}.

(** [json.loads] on the one document of the sample. *)
Definition sample_json_loads (s : string) : outcome json :=
  if String.eqb s sample_body
  then Ok (JObj {[ "text" := JStr "Copyright (c) [year] [fullname]" ]})
  else Raise ValueError.

Definition sample_now : datetime :=
  {| year := 2024; month := 11; day := 4;
     hour := 9; minute := 30; second := 0; microsecond := 0 |}.

(** The options after [--license mit], with author and time filled in. *)
Definition w_license (license : string) : world :=
  {| opts := <[ "license" := PStr license ]>
               (<[ "now" := PDateTime sample_now ]>
                  {[ "author_name" := PStr "Jane Doe" ]});
     stdin := []; console := []; files := ∅; errlog := [] |}.

(** A service that gives the same answer for every address, and a decoder
    that gives the same result for every text. *)
Definition answer_always (resp : response) : string -> outcome response :=
  fun _ => Ok resp.

Definition decode_always (result : outcome json) : string -> outcome json :=
  fun _ => result.

(** ** The template renderers *)

(** The line feed that ends every line of the templates. *)
Definition newline : string := String "010"%char EmptyString.

(** The template of [create_setup_py] with its five fields filled in, line by
    line; the doubled braces of the template stand for single ones. *)
Definition setup_py_text (description package_snakecase github_username author_name author_email : string) : string :=
  String.concat newline
    [ "import subprocess";
      "import sys";
      "import setuptools";
      "from " +:+ package_snakecase +:+ ".__version__ import VERSION";
      "";
      "";
      "def changelog():";
      "    log =  subprocess.check_output('bin/changelog')";
      "    if sys.version_info[0] == 3:";
      "        log = log.decode()";
      "    return log";
      "";
      "";
      "if __name__ == '__main__':";
      "    with open(" +:+ dquote +:+ "README.md" +:+ dquote +:+ ", "
        +:+ dquote +:+ "r" +:+ dquote +:+ ") as fh:";
      "        long_description = fh.read()";
      "    long_description += changelog() + '\n'";
      "";
      "    setuptools.setup(";
      "        name=" +:+ dquote +:+ package_snakecase +:+ dquote +:+ ",";
      "        version=VERSION,";
      "        author=" +:+ dquote +:+ author_name +:+ dquote +:+ ",";
      "        author_email=" +:+ dquote +:+ author_email +:+ dquote +:+ ",";
      "        description=(";
      "            " +:+ dquote +:+ description +:+ dquote;
      "        ),";
      "        long_description=long_description,";
      "        long_description_content_type=" +:+ dquote
        +:+ "text/markdown" +:+ dquote +:+ ",";
      "        url=" +:+ dquote +:+ "https://github.com/"
        +:+ github_username +:+ "/" +:+ package_snakecase +:+ dquote +:+ ",";
      "        packages=setuptools.find_packages(),";
      "        classifiers=(";
      "            " +:+ dquote +:+ "Programming Language :: Python :: 3"
        +:+ dquote +:+ ",";
      "            " +:+ dquote
        +:+ "License :: OSI Approved :: MIT License" +:+ dquote +:+ ",";
      "            " +:+ dquote +:+ "Operating System :: OS Independent"
        +:+ dquote +:+ ",";
      "        ),";
      "        entry_points={},";
      "        install_requires=[],";
      "        include_package_data=True";
      "    )";
      "" ].

(** The template of [create_travis_config] with its three fields filled in. *)
Definition travis_text (pypi_username github_username package_snakecase : string) : string :=
  String.concat newline
    [ "sudo: false";
      "";
      "language: python";
      "";
      "python:";
      "- '2.7'";
      "- '3.4'";
      "- '3.5'";
      "- '3.6'";
      "- nightly";
      "";
      "matrix:";
      "  # Ignore failures for unstable versions";
      "  allow_failures:";
      "    - python: nightly";
      "";
      "install:  - make init";
      "  - python -m pip install -e .";
      "";
      "before_script:";
      "  - make lint";
      "";
      "script:";
      "  - make test";
      "";
      "deploy:";
      "  provider: pypi";
      "  user: " +:+ pypi_username;
      "  password: $PYPI_PASSWORD";
      "  on:";
      "    branch: master";
      "    tags: true";
      "    distributions: sdist bdist_wheel";
      "    repo: " +:+ github_username +:+ "/" +:+ package_snakecase;
      "    python: '3.6'";
      "" ].

(** The template of [create_readme_md] with its four fields filled in. *)
Definition readme_text (badges package description package_hyphenated : string) : string :=
  String.concat newline
    [ badges;
      "";
      "";
      "# " +:+ package;
      description;
      "";
      "";
      "## Installation";
      "```bash";
      "pip install " +:+ package_hyphenated;
      "```";
      "" ].

(** [bool(v)]: the truth value of an option value. *)
Definition truthy (v : pyval) : bool :=
  match v with
  | PNone => false
  | PStr s => negb (String.eqb s "")
  | PBool b => b
  | PDateTime _ => true
  end.

(** [v == s] for a string literal [s]. *)
Definition py_eq_str (v : pyval) (s : string) : bool :=
  match v with
  | PStr s' => String.eqb s' s
  | _ => false
  end.

(** [open(path, 'w')]: the file is created, or emptied when it exists. *)
Definition open_w (path : string) : M unit :=
  fun w => (Ok tt, with_files (insert path "") w).

(** [f.write(text)] on the open file [path]: the text is added at the
    end.  Leaving the [with] block, also by an exception, keeps what has
    been written so far. *)
Definition file_write (path text : string) : M unit :=
  fun w => (Ok tt, with_files (fun fs => <[path := default "" (fs !! path) +:+ text]> fs) w).

(** [create_badge(alt_text, image, url)] *)
Definition create_badge (alt_text image url : string) : string :=
  "[![" +:+ alt_text +:+ "](" +:+ image +:+ ")](" +:+ url +:+ ")".

(** [create_travis_badge(opts)] *)
Definition create_travis_badge : M string :=
  travis_username <- require_opt "travis_username" py_str_type ;;
  package_snakecase <- derive_opt "package_snakecase" "package" py_snake_case ;;
  let url := "https://travis-ci.com/" +:+ py_format travis_username +:+ "/"
             +:+ py_format package_snakecase in
  let image := url +:+ ".svg?branch=master" in
  ret (create_badge "Build Status" image url).

(** [create_pypi_badge(opts)] *)
Definition create_pypi_badge : M string :=
  let image := "https://img.shield.io/pypi/v/nine.svg" in
  package_hyphenated <- derive_opt "package_hyphenated" "package" py_hyphenated ;;
  let url := "https://pypi.org/project/" +:+ py_format package_hyphenated in
  ret (create_badge "PyPI" image url).

(** [create_readme_md(opts)]: the badges are made first; then the file is
    opened, the remaining fields are resolved and the text is written. *)
Definition create_readme_md : M unit :=
  ci <- getattr "ci" ;;
  badges <- (if py_eq_str ci "travis"
             then badge <- create_travis_badge ;; ret [badge]
             else ret []) ;;
  no_pypi <- getattr "no_pypi" ;;
  badges <- (if negb (truthy no_pypi)
             then badge <- create_pypi_badge ;; ret (badges ++ [badge])
             else ret badges) ;;
  open_w "README.md" ;;;
  let joined := String.concat "" badges in
  package <- require_opt "package" py_str_type ;;
  description <- require_opt "description" py_str_type ;;
  package_hyphenated <- derive_opt "package_hyphenated" "package" py_hyphenated ;;
  file_write "README.md"
    (readme_text joined (py_format package) (py_format description)
       (py_format package_hyphenated)).

(** [create_travis_config(opts)] *)
Definition create_travis_config : M unit :=
  open_w ".travis.yml" ;;;
  pypi_username <- require_opt "pypi_username" py_str_type ;;
  github_username <- require_opt "github_username" py_str_type ;;
  package_snakecase <- derive_opt "package_snakecase" "package" py_snake_case ;;
  file_write ".travis.yml"
    (travis_text (py_format pypi_username) (py_format github_username)
       (py_format package_snakecase)).

(** [create_ci_config(opts)] *)
Definition create_ci_config : M unit :=
  ci <- getattr "ci" ;;
  if py_eq_str ci "travis" then create_travis_config else ret tt.

(** [create_setup_py(opts)] *)
Definition create_setup_py : M unit :=
  open_w "setup.py" ;;;
  description <- require_opt "description" py_str_type ;;
  package_snakecase <- derive_opt "package_snakecase" "package" py_snake_case ;;
  github_username <- require_opt "github_username" py_str_type ;;
  author_name <- require_opt "author_name" py_str_type ;;
  author_email <- require_opt "author_email" py_str_type ;;
  file_write "setup.py"
    (setup_py_text (py_format description) (py_format package_snakecase)
       (py_format github_username) (py_format author_name)
       (py_format author_email)).

(** [os.path.join(d, name)] on a POSIX system. *)
Definition path_join (d name : string) : string :=
  if String.prefix "/" name then name
  else if String.eqb d "" then name
  else if String.eqb (String.substring (String.length d - 1) 1 d) "/" then d +:+ name
  else d +:+ "/" +:+ name.

Section PackageDirectory.

(** [os.makedirs(d, exist_ok=True)] is a parameter: whether the directory
    can be made.  Directories are not part of the modelled world. *)
Variable makedirs : string -> outcome unit.

(** [create_package_directory(opts)] *)
Definition create_package_directory : M unit :=
  d <- derive_opt "package_snakecase" "package" py_snake_case ;;
  dir <- match d with
         | PStr s => ret s
         | _ => raise TypeError
         end ;;
  lift (makedirs dir) ;;;
  let filepath := path_join dir "__init__.py" in
  open_w filepath ;;;
  file_write filepath ("from .__version__ import VERSION" +:+ newline) ;;;
  let filepath := path_join dir "__version__.py" in
  open_w filepath ;;;
  file_write filepath ("VERSION = '1.0.0'" +:+ newline).

End PackageDirectory.

(** The renderers that resolve options, and a run of some of them in a
    given order; the run stops at the first exception. *)
Inductive renderer :=
| Readme
| PackageDirectory
| SetupPy
| CiConfig.

Definition run_renderer (makedirs : string -> outcome unit) (r : renderer) : M unit :=
  match r with
  | Readme => create_readme_md
  | PackageDirectory => create_package_directory makedirs
  | SetupPy => create_setup_py
  | CiConfig => create_ci_config
  end.

Fixpoint run_renderers (makedirs : string -> outcome unit) (rs : list renderer) : M unit :=
  match rs with
  | [] => ret tt
  | r :: rs' => run_renderer makedirs r ;;; run_renderers makedirs rs'
  end.

(** *** Sample options for the renderers *)

(** After [--ci travis], with the package index badge wanted and nothing
    else given; the user will answer three questions. *)
Definition w_readme (answers : list string) : world :=
  {| opts := <[ "ci" := PStr "travis" ]> {[ "no_pypi" := PBool false ]};
     stdin := answers; console := []; files := ∅; errlog := [] |}.

(** No badges wanted, an old README in place, and no answer to come. *)
Definition w_old_readme : world :=
  {| opts := <[ "ci" := PNone ]> {[ "no_pypi" := PBool true ]};
     stdin := []; console := [];
     files := {[ "README.md" := "# Old text" ]}; errlog := [] |}.

(** Every directory can be made. *)
Definition makedirs_ok (d : string) : outcome unit := Ok tt.

(** ** The script *)

(** [c.isspace()] for an ASCII character: tab, line feed, vertical tab, form
    feed, carriage return, the four separators 28 to 31, and the space. *)
Definition is_space (c : ascii) : bool :=
  let n := nat_of_ascii c in
  (Nat.leb 9 n && Nat.leb n 13) || (Nat.leb 28 n && Nat.leb n 32).

(** [s.lstrip()], [s.rstrip()] and [s.strip()] *)
Fixpoint lstrip (s : string) : string :=
  match s with
  | EmptyString => EmptyString
  | String c s' => if is_space c then lstrip s' else s
  end.

Fixpoint rstrip (s : string) : string :=
  match s with
  | EmptyString => EmptyString
  | String c s' =>
      match rstrip s' with
      | EmptyString => if is_space c then EmptyString else String c EmptyString
      | r => String c r
      end
  end.

Definition strip (s : string) : string := rstrip (lstrip s).

Section Main.

(** What the script takes from outside: the parser (for its help text),
    the clock, the output of a command ([subprocess.check_output], decoded),
    the license service, the JSON decoder and [os.makedirs]. *)
Variable the_parser : parser.
Variable now : datetime.
Variable check_output : list string -> outcome string.
Variable requests_get : string -> outcome response.
Variable json_loads : string -> outcome json.
Variable makedirs : string -> outcome unit.

(** [get_cli_output], applied to the words of a command. *)
Definition get_cli_output (args : list string) : M string :=
  out <- lift (check_output args) ;;
  ret (strip out).

(** The body of the script, from the namespace that [parse_args]
    returned. *)
Definition main : M unit :=
  help <- getattr "help" ;;
  (match help with
   | PNone => ret tt
   | PStr help_target => display_help the_parser help_target
   | _ => raise TypeError
   end) ;;;
  setattr "now" (PDateTime now) ;;;
  author_name <- getattr_or_None "author_name" ;;
  (if is_None author_name then
     name <- get_cli_output ["git"; "config"; "user.name"] ;;
     setattr "author_name" (PStr name)
   else ret tt) ;;;
  author_email <- getattr_or_None "author_email" ;;
  (if is_None author_email then
     email <- get_cli_output ["git"; "config"; "user.email"] ;;
     setattr "author_email" (PStr email)
   else ret tt) ;;;
  license <- getattr "license" ;;
  (if negb (is_None license)
   then create_license_md requests_get json_loads else ret tt) ;;;
  no_readme <- getattr "no_readme" ;;
  (if negb (truthy no_readme) then create_readme_md else ret tt) ;;;
  no_package <- getattr "no_package" ;;
  (if negb (truthy no_package) then create_package_directory makedirs else ret tt) ;;;
  no_setup <- getattr "no_setup" ;;
  (if negb (truthy no_setup) then create_setup_py else ret tt) ;;;
  ci <- getattr "ci" ;;
  (if truthy ci then create_ci_config else ret tt).

End Main.

(** *** Sample runs of the script *)

(** The namespace [parse_args] returns for the given values of [--help],
    [--license] and [--ci], with every artifact suppressed or not. *)
Definition parsed (help license ci : pyval) (suppress : bool) : world :=
  {| opts := <[ "help" := help ]> (<[ "quiet" := PBool false ]>
             (<[ "description" := PNone ]> (<[ "license" := license ]>
             (<[ "ci" := ci ]> (<[ "package" := PNone ]>
             (<[ "no_readme" := PBool suppress ]>
             (<[ "no_package" := PBool suppress ]>
             (<[ "no_pypi" := PBool suppress ]>
             {[ "no_setup" := PBool suppress ]}))))))));
     stdin := []; console := []; files := ∅; errlog := [] |}.

(** [git config] answers with a line for the name and one for the
    address, and fails for anything else. *)
Definition sample_check_output (args : list string) : outcome string :=
  match args with
  | ["git"; "config"; "user.name"] => Ok ("Jane Doe" +:+ newline)
  | ["git"; "config"; "user.email"] => Ok ("jane@example.org" +:+ newline)
  | _ => Raise ValueError
  end.

(** A runner whose every command fails; the exception stands for the one
    that [subprocess] raises. *)
Definition no_check_output (args : list string) : outcome string :=
  Raise RequestException.

(** * Properties *)

(** ** Strings: concatenation, length, occurrences *)

Section StringFacts.

Implicit Types (a b c d s t u v x : string) (k : ascii).

Lemma sapp_nil_l s : "" +:+ s = s.
Proof. reflexivity. Qed.

Lemma sapp_cons k a b : String k a +:+ b = String k (a +:+ b).
Proof. reflexivity. Qed.

Lemma sapp_nil_r s : s +:+ "" = s.
Proof. induction s as [|k s IH]; [reflexivity | now rewrite sapp_cons, IH]. Qed.

Lemma sapp_assoc a b c : (a +:+ b) +:+ c = a +:+ (b +:+ c).
Proof. induction a as [|k a IH]; [reflexivity | now rewrite !sapp_cons, IH]. Qed.

Lemma slength_app a b : String.length (a +:+ b) = String.length a + String.length b.
Proof.
  induction a as [|k a IH]; [reflexivity | rewrite sapp_cons; simpl; now rewrite IH].
Qed.

Lemma sapp_eq_nil a b : a +:+ b = "" -> a = "" /\ b = "".
Proof. destruct a; [now split | rewrite sapp_cons; discriminate]. Qed.

Lemma sapp_inv_head a b c : a +:+ b = a +:+ c -> b = c.
Proof.
  induction a as [|k a IH]; [trivial|].
  rewrite !sapp_cons. intros [= H]. auto.
Qed.

Lemma sapp_inv_tail a b t : a +:+ t = b +:+ t -> a = b.
Proof.
  revert b; induction a as [|k a IH]; intros [|k' b] H.
  - reflexivity.
  - apply (f_equal String.length) in H.
    rewrite sapp_nil_l, sapp_cons in H; simpl in H. rewrite slength_app in H. lia.
  - apply (f_equal String.length) in H.
    rewrite sapp_nil_l, sapp_cons in H; simpl in H. rewrite slength_app in H. lia.
  - rewrite !sapp_cons in H. injection H as -> H. f_equal. now apply IH.
Qed.

(** Two ways of cutting one string: one cut point comes first. *)
Lemma sapp_eq_app a b c d :
  a +:+ b = c +:+ d ->
  (exists e, c = a +:+ e /\ b = e +:+ d) \/
  (exists e, a = c +:+ e /\ d = e +:+ b).
Proof.
  revert c; induction a as [|k a IH]; intros c H.
  - left. exists c. now rewrite sapp_nil_l in *.
  - destruct c as [|k' c].
    + right. exists (String k a). now rewrite sapp_nil_l in *.
    + rewrite !sapp_cons in H. injection H as -> H.
      destruct (IH _ H) as [[e [-> ->]]|[e [-> ->]]].
      * left; exists e; now rewrite sapp_cons.
      * right; exists e; now rewrite sapp_cons.
Qed.

Lemma prefix_spec x s : String.prefix x s = true <-> exists b, s = x +:+ b.
Proof.
  revert s; induction x as [|k x IH]; intros s.
  - destruct s; simpl; split; eauto.
  - destruct s as [|k' s]; simpl.
    + split; [discriminate | intros [b H]; rewrite sapp_cons in H; discriminate].
    + destruct (ascii_dec k k') as [->|N]; simpl.
      * rewrite IH. split; intros [b H]; exists b.
        -- now rewrite sapp_cons, H.
        -- rewrite sapp_cons in H. now injection H.
      * split; [discriminate|]. intros [b H]. rewrite sapp_cons in H.
        injection H as -> _. now destruct N.
Qed.

Lemma contains_nil x : Str.contains x "" = String.prefix x "" || false.
Proof. reflexivity. Qed.

Lemma contains_cons x k s :
  Str.contains x (String k s) = String.prefix x (String k s) || Str.contains x s.
Proof. reflexivity. Qed.

Lemma contains_spec x s : Str.contains x s = true <-> Str.occurs x s.
Proof.
  induction s as [|k s IH].
  - rewrite contains_nil, orb_false_r, prefix_spec. split.
    + intros [b H]. exists "", b. now rewrite sapp_nil_l.
    + intros [a [b H]]. symmetry in H.
      apply sapp_eq_nil in H as [-> H]. apply sapp_eq_nil in H as [-> ->].
      now exists "".
  - rewrite contains_cons, orb_true_iff, IH, prefix_spec. split.
    + intros [[b H]|[a [b H]]].
      * exists "", b. now rewrite sapp_nil_l.
      * exists (String k a), b. now rewrite sapp_cons, H.
    + intros [[|k' a] [b H]].
      * left. exists b. now rewrite sapp_nil_l in H.
      * right. rewrite sapp_cons in H. injection H as -> H. now exists a, b.
Qed.

Lemma not_contains_spec x s : Str.contains x s = false <-> ~ Str.occurs x s.
Proof.
  rewrite <- contains_spec. destruct (Str.contains x s); split; congruence.
Qed.

Lemma occurs_app_l x a b : Str.occurs x a -> Str.occurs x (a +:+ b).
Proof.
  intros [l [r ->]]. exists l, (r +:+ b). now rewrite !sapp_assoc.
Qed.

Lemma occurs_app_r x a b : Str.occurs x b -> Str.occurs x (a +:+ b).
Proof.
  intros [l [r ->]]. exists (a +:+ l), r. now rewrite !sapp_assoc.
Qed.

(** An occurrence in a concatenation lies in the left part, in the right
    part, or across the seam. *)
Lemma occurs_app x a b :
  Str.occurs x (a +:+ b) ->
  Str.occurs x a \/ Str.occurs x b \/
  exists u v a' b', u <> "" /\ v <> "" /\ x = u +:+ v /\
                    a = a' +:+ u /\ b = v +:+ b'.
Proof.
  intros [l [r H]].
  destruct (sapp_eq_app _ _ _ _ H) as [[e [-> ->]]|[e [-> H2]]].
  - right; left. now exists e, r.
  - destruct (sapp_eq_app _ _ _ _ H2) as [[e' [-> ->]]|[e' [-> ->]]].
    + left. exists l, e'. reflexivity.
    + destruct e as [|k e].
      * right; left. exists "", r. now rewrite !sapp_nil_l.
      * destruct e' as [|k' e'].
        -- left. exists l, "". now rewrite !sapp_nil_r.
        -- right; right. exists (String k e), (String k' e'), l, r.
           repeat split; congruence.
Qed.

Lemma mem_app k a b : Str.mem k (a +:+ b) = Str.mem k a || Str.mem k b.
Proof.
  unfold Str.mem. induction a as [|k' a IH]; [reflexivity|].
  rewrite sapp_cons; simpl. now rewrite IH, orb_assoc.
Qed.

Lemma mem_head k s : Str.mem k (String k s) = true.
Proof. unfold Str.mem; simpl. now rewrite Ascii.eqb_refl. Qed.

End StringFacts.



(** ** The two name transforms *)

Section NameTransforms.

Local Open Scope string_scope.


Lemma smap_length f s : String.length (Str.map f s) = String.length s.
Proof. induction s as [|c s IH]; simpl; [reflexivity | now rewrite IH]. Qed.

Lemma smap_get f s i : String.get i (Str.map f s) = f <$> String.get i s.
Proof.
  revert i; induction s as [|c s IH]; intros i; simpl; [reflexivity|].
  destruct i as [|i]; [reflexivity | apply IH].
Qed.

Lemma smap_smap f g s : Str.map f (Str.map g s) = Str.map (fun c => f (g c)) s.
Proof. induction s as [|c s IH]; simpl; [reflexivity | now rewrite IH]. Qed.

Lemma smap_ext f g s : (forall c, f c = g c) -> Str.map f s = Str.map g s.
Proof.
  intros E; induction s as [|c s IH]; simpl; [reflexivity | now rewrite E, IH].
Qed.

Lemma smap_forallb (p q : ascii -> bool) f s :
  (forall c, p c = true -> q (f c) = true) ->
  Str.forallb p s = true -> Str.forallb q (Str.map f s) = true.
Proof.
  intros Hpq; induction s as [|c s IH]; simpl; [reflexivity|].
  intros [Hc Hs]%andb_true_iff. rewrite (Hpq _ Hc). now apply IH.
Qed.

Lemma lower_smap s : Str.ascii_lower s = Str.map Str.ascii_lower_char s.
Proof. induction s as [|c s IH]; simpl; [reflexivity | now rewrite IH]. Qed.

(** A one-character replacement turns the substitution into a map. *)
Lemma re_sub_class_smap cls r s :
  Str.re_sub_class cls (String r EmptyString) s
  = Str.map (fun c => if Str.in_class cls c then r else c) s.
Proof.
  induction s as [|c s IH]; simpl; [reflexivity|].
  rewrite IH. now destruct (Str.in_class cls c).
Qed.

(** Facts about single characters are settled by running through the 256
    of them. *)
Ltac all_chars c := destruct c as [[] [] [] [] [] [] [] []]; vm_compute; congruence.

Lemma snake_char_ok c :
  (if Str.in_class [" "; "-"]%char (Str.ascii_lower_char c) then "_"%char
   else Str.ascii_lower_char c) = snake_char c.
Proof. all_chars c. Qed.

Lemma hyphen_char_ok c :
  (if Str.in_class [" "; "_"]%char (Str.ascii_lower_char c) then "-"%char
   else Str.ascii_lower_char c) = hyphen_char c.
Proof. all_chars c. Qed.

Lemma snake_case_smap s : snake_case s = Str.map snake_char s.
Proof.
  unfold snake_case. rewrite re_sub_class_smap, lower_smap, smap_smap.
  apply smap_ext, snake_char_ok.
Qed.

Lemma hyphenated_smap s : hyphenated s = Str.map hyphen_char s.
Proof.
  unfold hyphenated. rewrite re_sub_class_smap, lower_smap, smap_smap.
  apply smap_ext, hyphen_char_ok.
Qed.

Lemma snake_char_charset c : name_char c = true -> snake_ok (snake_char c) = true.
Proof. all_chars c. Qed.

Lemma hyphen_char_charset c : name_char c = true -> hyphen_ok (hyphen_char c) = true.
Proof. all_chars c. Qed.

(** C3, as amended. For every package name written only with ASCII letters,
    digits, spaces, underscores and hyphens, [snake_case] of the name
    consists only of lowercase letters, digits and underscores, and
    [hyphenated] of the name only of lowercase letters, digits and
    hyphens. *)
Theorem name_transforms_charset (name : string) :
  Str.forallb name_char name = true ->
  Str.forallb snake_ok (snake_case name) = true /\
  Str.forallb hyphen_ok (hyphenated name) = true.
Proof.
  intros H. rewrite snake_case_smap, hyphenated_smap. split.
  - exact (smap_forallb _ _ _ _ snake_char_charset H).
  - exact (smap_forallb _ _ _ _ hyphen_char_charset H).
Qed.

Lemma name_transforms_charset_witness :
  Str.forallb name_char "My Cool_App-2" = true /\
  Str.forallb snake_ok (snake_case "My Cool_App-2") = true /\
  Str.forallb hyphen_ok (hyphenated "My Cool_App-2") = true.
Proof.
  split; [reflexivity | apply (name_transforms_charset "My Cool_App-2"); reflexivity].
Defined.

(** C3, as stated, fails: the name ["a.b c"] contains a space, and its
    snake-case form ["a.b_c"] keeps the dot, which is neither a lowercase
    letter nor a digit nor an underscore. *)
Lemma name_transforms_charset_counterexample :
  Str.existsb is_separator "a.b c" = true /\
  ~ (Str.forallb snake_ok (snake_case "a.b c") = true /\
     Str.forallb hyphen_ok (hyphenated "a.b c") = true).
Proof. split; [reflexivity | intros [H _]; vm_compute in H; discriminate]. Qed.

End NameTransforms.

(** ** The name transforms on arbitrary text *)

(** Facts about single code points: every comparison is decided and
    arithmetic does the rest. *)
Ltac codepoints :=
  unfold Unicode.to_underscore, Unicode.to_hyphen, Unicode.ascii_lower_char,
    Unicode.snake_plain, Unicode.hyphen_plain, Unicode.snake_separated,
    Unicode.hyphen_separated, Unicode.is_separator,
    Unicode.is_upper, Unicode.in_class, Unicode.space, Unicode.hyphen,
    Unicode.underscore in *;
  repeat match goal with
         | |- context [N.eqb ?a ?b] => destruct (N.eqb_spec a b)
         | |- context [N.leb ?a ?b] => destruct (N.leb_spec a b)
         | H : context [N.eqb ?a ?b] |- _ => destruct (N.eqb_spec a b)
         | H : context [N.leb ?a ?b] |- _ => destruct (N.leb_spec a b)
         end;
  simpl in *; try reflexivity; try discriminate; try lia.

Section UnicodeNames.

Implicit Types (lower : Unicode.str -> Unicode.str) (s x : Unicode.str).
Implicit Types (c : Unicode.codepoint).

(** A one-character replacement turns the substitution into a map. *)
Lemma re_sub_class_fmap cls c s :
  Unicode.re_sub_class cls [c] s
  = (fun d => if Unicode.in_class cls d then c else d) <$> s.
Proof.
  induction s as [|d s IH]; simpl; [reflexivity|].
  rewrite IH. now destruct (Unicode.in_class cls d).
Qed.

Lemma snake_case_fmap lower s :
  Unicode.snake_case lower s = Unicode.to_underscore <$> lower s.
Proof. apply re_sub_class_fmap. Qed.

Lemma hyphenated_fmap lower s :
  Unicode.hyphenated lower s = Unicode.to_hyphen <$> lower s.
Proof. apply re_sub_class_fmap. Qed.

Lemma to_underscore_separators : Unicode.separator_map Unicode.to_underscore.
Proof. intros c. codepoints. Qed.

Lemma to_hyphen_separators : Unicode.separator_map Unicode.to_hyphen.
Proof. intros c. codepoints. Qed.

Lemma to_underscore_idem c :
  Unicode.to_underscore (Unicode.to_underscore c) = Unicode.to_underscore c.
Proof. codepoints. Qed.

Lemma to_hyphen_idem c :
  Unicode.to_hyphen (Unicode.to_hyphen c) = Unicode.to_hyphen c.
Proof. codepoints. Qed.

Lemma to_hyphen_underscore c :
  Unicode.to_hyphen (Unicode.to_underscore c) = Unicode.to_hyphen c.
Proof. codepoints. Qed.

Lemma to_underscore_hyphen c :
  Unicode.to_underscore (Unicode.to_hyphen c) = Unicode.to_underscore c.
Proof. codepoints. Qed.

Lemma fmap_fmap_ext (f g h : Unicode.codepoint -> Unicode.codepoint) s :
  (forall c, f (g c) = h c) -> f <$> (g <$> s) = h <$> s.
Proof.
  intros E. rewrite <- list_fmap_compose. apply list_fmap_ext. intros _ c _. apply E.
Qed.

(** Lowering a transformed name: the separators that were exchanged do not
    matter and the letters are lowered already. *)
Lemma lower_transformed lower f x :
  Unicode.lower_idempotent lower -> Unicode.lower_blind_to_separators lower ->
  Unicode.separator_map f -> lower (f <$> lower x) = f <$> lower x.
Proof. intros Hi Hb Hf. now rewrite (Hb f _ Hf), Hi. Qed.

(** The ASCII case mapping has the three properties asked of
    [str.lower]. *)
Lemma ascii_lower_on_ascii : Unicode.lower_on_ascii Unicode.ascii_lower.
Proof. intros s _. reflexivity. Qed.

Lemma ascii_lower_idempotent : Unicode.lower_idempotent Unicode.ascii_lower.
Proof.
  intros s. unfold Unicode.ascii_lower. apply fmap_fmap_ext. intros c. codepoints.
Qed.

Lemma ascii_lower_blind : Unicode.lower_blind_to_separators Unicode.ascii_lower.
Proof.
  intros f s Hf. unfold Unicode.ascii_lower.
  rewrite <- !list_fmap_compose. apply list_fmap_ext. intros _ c _. simpl.
  pose proof (Hf c) as Hc. pose proof (Hf (Unicode.ascii_lower_char c)) as Hl.
  destruct (Unicode.is_separator c) eqn:S.
  - assert (E : Unicode.ascii_lower_char c = c) by (clear Hc Hl; codepoints).
    rewrite E. clear Hl E S. revert Hc. generalize (f c). intros d Hd. codepoints.
  - rewrite Hc.
    assert (S' : Unicode.is_separator (Unicode.ascii_lower_char c) = false)
      by (clear Hc Hl; codepoints).
    rewrite S' in Hl. now rewrite Hl.
Qed.

(** On ASCII text the functions on code points are [snake_case] and
    [hyphenated] on strings. *)
Lemma of_string_smap (f : ascii -> ascii) (g : Unicode.codepoint -> Unicode.codepoint)
    (t : string) :
  (forall k, N_of_ascii (f k) = g (N_of_ascii k)) ->
  Unicode.of_string (Str.map f t) = g <$> Unicode.of_string t.
Proof.
  intros E. unfold Unicode.of_string.
  induction t as [|k t IH]; [reflexivity|].
  cbn [Str.map list_ascii_of_string]. rewrite !fmap_cons. now rewrite E, IH.
Qed.

Lemma of_string_ascii (t : string) :
  Str.forallb is_ascii t = true -> Unicode.is_ascii (Unicode.of_string t) = true.
Proof.
  unfold Unicode.of_string, Unicode.is_ascii.
  induction t as [|k t IH]; [reflexivity|].
  cbn [Str.forallb list_ascii_of_string]. intros [Hk Ht]%andb_true_iff.
  rewrite fmap_cons. cbn [forallb]. rewrite (IH Ht), andb_true_r.
  revert Hk. destruct k as [[] [] [] [] [] [] [] []]; vm_compute; congruence.
Qed.

Lemma of_snake_char k :
  N_of_ascii (snake_char k)
  = Unicode.to_underscore (Unicode.ascii_lower_char (N_of_ascii k)).
Proof. destruct k as [[] [] [] [] [] [] [] []]; reflexivity. Qed.

Lemma of_hyphen_char k :
  N_of_ascii (hyphen_char k)
  = Unicode.to_hyphen (Unicode.ascii_lower_char (N_of_ascii k)).
Proof. destruct k as [[] [] [] [] [] [] [] []]; reflexivity. Qed.

Lemma snake_case_of_string lower (t : string) :
  Unicode.lower_on_ascii lower -> Str.forallb is_ascii t = true ->
  Unicode.snake_case lower (Unicode.of_string t) = Unicode.of_string (snake_case t) /\
  Unicode.hyphenated lower (Unicode.of_string t) = Unicode.of_string (hyphenated t).
Proof.
  intros Hl Ht.
  rewrite snake_case_fmap, hyphenated_fmap, (Hl _ (of_string_ascii _ Ht)).
  rewrite snake_case_smap, hyphenated_smap. unfold Unicode.ascii_lower.
  rewrite <- !list_fmap_compose. split; symmetry; apply of_string_smap.
  - apply of_snake_char.
  - apply of_hyphen_char.
Qed.

(** C1. For every string [s], [snake_case(s)] is the lowered string
    [s.lower()] with every space and every hyphen replaced by an underscore
    and every other character kept in its place, and [hyphenated(s)] is the
    lowered string with every space and every underscore replaced by a
    hyphen.  Lowering is [str.lower] of the runtime, whatever it does
    outside ASCII; given that on ASCII text it lowers the letters [A]..[Z],
    the two functions send ["My Cool App"] to ["my_cool_app"] and
    ["my-cool-app"]. *)
Theorem snake_case_hyphenated_spec lower s :
  (length (Unicode.snake_case lower s) = length (lower s) /\
   forall i, Unicode.snake_case lower s !! i
             = Unicode.to_underscore <$> lower s !! i) /\
  (length (Unicode.hyphenated lower s) = length (lower s) /\
   forall i, Unicode.hyphenated lower s !! i
             = Unicode.to_hyphen <$> lower s !! i) /\
  (Unicode.lower_on_ascii lower ->
   Unicode.snake_case lower (Unicode.of_string "My Cool App")
   = Unicode.of_string "my_cool_app" /\
   Unicode.hyphenated lower (Unicode.of_string "My Cool App")
   = Unicode.of_string "my-cool-app").
Proof.
  rewrite snake_case_fmap, hyphenated_fmap. split; [|split].
  - split; [apply length_fmap | intros i; apply list_lookup_fmap].
  - split; [apply length_fmap | intros i; apply list_lookup_fmap].
  - intros Hl. rewrite snake_case_fmap, hyphenated_fmap.
    rewrite (Hl (Unicode.of_string "My Cool App") eq_refl). split; reflexivity.
Qed.

Lemma snake_case_hyphenated_spec_witness :
  Unicode.lower_on_ascii Unicode.ascii_lower /\
  Unicode.snake_case Unicode.ascii_lower (Unicode.of_string "My Cool App")
  = Unicode.of_string "my_cool_app" /\
  Unicode.hyphenated Unicode.ascii_lower (Unicode.of_string "My Cool App")
  = Unicode.of_string "my-cool-app".
Proof.
  split; [exact ascii_lower_on_ascii|].
  exact (proj2 (proj2 (snake_case_hyphenated_spec Unicode.ascii_lower
                         (Unicode.of_string "My Cool App")))
           ascii_lower_on_ascii).
Defined.

(** C4. Both transforms are idempotent on every string.  What this rests on
    is that [str.lower] is idempotent and does not tell the space, the
    hyphen and the underscore apart. *)
Theorem name_transforms_idempotent lower x :
  Unicode.lower_idempotent lower -> Unicode.lower_blind_to_separators lower ->
  Unicode.snake_case lower (Unicode.snake_case lower x) = Unicode.snake_case lower x /\
  Unicode.hyphenated lower (Unicode.hyphenated lower x) = Unicode.hyphenated lower x.
Proof.
  intros Hi Hb. split.
  - rewrite !snake_case_fmap.
    rewrite (lower_transformed _ _ _ Hi Hb to_underscore_separators).
    apply fmap_fmap_ext, to_underscore_idem.
  - rewrite !hyphenated_fmap.
    rewrite (lower_transformed _ _ _ Hi Hb to_hyphen_separators).
    apply fmap_fmap_ext, to_hyphen_idem.
Qed.

Lemma name_transforms_idempotent_witness :
  Unicode.lower_idempotent Unicode.ascii_lower /\
  Unicode.lower_blind_to_separators Unicode.ascii_lower /\
  Unicode.snake_case Unicode.ascii_lower
    (Unicode.snake_case Unicode.ascii_lower (Unicode.of_string "My Cool-App"))
  = Unicode.of_string "my_cool_app" /\
  Unicode.hyphenated Unicode.ascii_lower
    (Unicode.hyphenated Unicode.ascii_lower (Unicode.of_string "My Cool_App"))
  = Unicode.of_string "my-cool-app".
Proof.
  split; [exact ascii_lower_idempotent|]. split; [exact ascii_lower_blind|].
  destruct (name_transforms_idempotent Unicode.ascii_lower
              (Unicode.of_string "My Cool-App")
              ascii_lower_idempotent ascii_lower_blind) as [-> _].
  destruct (name_transforms_idempotent Unicode.ascii_lower
              (Unicode.of_string "My Cool_App")
              ascii_lower_idempotent ascii_lower_blind) as [_ ->].
  split; reflexivity.
Defined.

(** C10. Each transform absorbs the other on every string: the hyphenated
    form of the snake-case name is the hyphenated form of the name, and
    conversely.  This rests on the same two facts about [str.lower] as
    idempotence does. *)
Theorem name_transforms_absorb lower x :
  Unicode.lower_idempotent lower -> Unicode.lower_blind_to_separators lower ->
  Unicode.hyphenated lower (Unicode.snake_case lower x) = Unicode.hyphenated lower x /\
  Unicode.snake_case lower (Unicode.hyphenated lower x) = Unicode.snake_case lower x.
Proof.
  intros Hi Hb. split.
  - rewrite hyphenated_fmap, snake_case_fmap, hyphenated_fmap.
    rewrite (lower_transformed _ _ _ Hi Hb to_underscore_separators).
    apply fmap_fmap_ext, to_hyphen_underscore.
  - rewrite snake_case_fmap, hyphenated_fmap, snake_case_fmap.
    rewrite (lower_transformed _ _ _ Hi Hb to_hyphen_separators).
    apply fmap_fmap_ext, to_underscore_hyphen.
Qed.

Lemma name_transforms_absorb_witness :
  Unicode.lower_idempotent Unicode.ascii_lower /\
  Unicode.lower_blind_to_separators Unicode.ascii_lower /\
  Unicode.hyphenated Unicode.ascii_lower
    (Unicode.snake_case Unicode.ascii_lower (Unicode.of_string "My Cool-App"))
  = Unicode.of_string "my-cool-app" /\
  Unicode.snake_case Unicode.ascii_lower
    (Unicode.hyphenated Unicode.ascii_lower (Unicode.of_string "My Cool_App"))
  = Unicode.of_string "my_cool_app".
Proof.
  split; [exact ascii_lower_idempotent|]. split; [exact ascii_lower_blind|].
  destruct (name_transforms_absorb Unicode.ascii_lower
              (Unicode.of_string "My Cool-App")
              ascii_lower_idempotent ascii_lower_blind) as [-> _].
  destruct (name_transforms_absorb Unicode.ascii_lower
              (Unicode.of_string "My Cool_App")
              ascii_lower_idempotent ascii_lower_blind) as [_ ->].
  split; reflexivity.
Defined.

End UnicodeNames.


(** ** The options resolver *)

Section Resolver.

Implicit Types (w : world) (name src : string) (v : pyval).

Lemma is_set_lookup w name v : is_set w name v -> default PNone (opts w !! name) = v.
Proof. intros [-> _]; reflexivity. Qed.

Lemma is_set_not_None w name v : is_set w name v -> is_None v = false.
Proof. intros [_ H]; destruct v; simpl; congruence. Qed.

Lemma is_unset_is_None w name :
  is_unset w name -> is_None (default PNone (opts w !! name)) = true.
Proof. unfold is_unset; intros ->; reflexivity. Qed.

Lemma is_set_unset w name v : is_set w name v -> is_unset w name -> False.
Proof. intros [E N] U; unfold is_unset in U; rewrite E in U; simpl in U; auto. Qed.

(** [require_opt] written out by cases. *)
Lemma require_opt_cases name ty w :
  require_opt name ty w =
  if is_None (default PNone (opts w !! name)) then
    let w0 := emit (Prompted (name +:+ ": ")) w in
    match stdin w with
    | [] => (Raise EOFError, w0)
    | line :: rest =>
        match ty line with
        | Ok value => (Ok value, with_opts (insert name value) (with_stdin rest w0))
        | Raise e => (Raise e, with_stdin rest w0)
        end
    end
  else (Ok (default PNone (opts w !! name)), w).
Proof.
  unfold require_opt, bind, getattr_or_None, getattr, user_input, lift, setattr, ret.
  destruct (opts w !! name) as [v|] eqn:E; simpl.
  - destruct (is_None v) eqn:N; [|now rewrite E].
    destruct (stdin w) as [|line rest]; [reflexivity|].
    destruct (ty line) as [value|e]; [|reflexivity].
    simpl. now rewrite lookup_insert_eq.
  - destruct (stdin w) as [|line rest]; [reflexivity|].
    destruct (ty line) as [value|e]; [|reflexivity].
    simpl. now rewrite lookup_insert_eq.
Qed.

Lemma require_opt_set w name ty v :
  is_set w name v -> require_opt name ty w = (Ok v, w).
Proof.
  intros H. rewrite require_opt_cases, (is_set_lookup _ _ _ H).
  now rewrite (is_set_not_None _ _ _ H).
Qed.

(** [derive_opt] written out by cases. *)
Lemma derive_opt_cases name src tr w :
  derive_opt name src tr w =
  if is_None (default PNone (opts w !! name)) then
    match require_opt src py_str_type w with
    | (Ok value, w1) =>
        match tr value with
        | Ok derived => (Ok derived, with_opts (insert name derived) w1)
        | Raise e => (Raise e, w1)
        end
    | (Raise e, w1) => (Raise e, w1)
    end
  else (Ok (default PNone (opts w !! name)), w).
Proof.
  unfold derive_opt, bind at 1 2, getattr_or_None.
  destruct (is_None (default PNone (opts w !! name))) eqn:N.
  - unfold bind. destruct (require_opt src py_str_type w) as [[value|e] w1]; [|reflexivity].
    unfold lift. destruct (tr value) as [derived|e]; [|reflexivity].
    unfold setattr, getattr; simpl. now rewrite lookup_insert_eq.
  - unfold ret, getattr. destruct (opts w !! name) as [v|]; [reflexivity|discriminate].
Qed.

Lemma derive_opt_set w name src tr v :
  is_set w name v -> derive_opt name src tr w = (Ok v, w).
Proof.
  intros H. rewrite derive_opt_cases, (is_set_lookup _ _ _ H).
  now rewrite (is_set_not_None _ _ _ H).
Qed.

(** C5. [derive_opt] on a field that is set returns its value and leaves
    everything, the source field included, as it was.  On a field that is
    not set it resolves the source through [require_opt]: a source that is
    set is used without any prompt, a source that is not set is prompted
    for once and stored; then the transform of the source value is stored
    under the field and returned. *)
Theorem derive_opt_spec w name src (transform : pyval -> outcome pyval) :
  (forall v, is_set w name v -> derive_opt name src transform w = (Ok v, w)) /\
  (forall sv tv,
      is_unset w name -> is_set w src sv -> transform sv = Ok tv ->
      require_opt src py_str_type w = (Ok sv, w) /\
      derive_opt name src transform w
      = (Ok tv, with_opts (insert name tv) w)) /\
  (forall line rest tv,
      is_unset w name -> is_unset w src -> stdin w = line :: rest ->
      transform (PStr line) = Ok tv ->
      let w1 := with_opts (insert src (PStr line))
                  (with_stdin rest (emit (Prompted (src +:+ ": ")) w)) in
      require_opt src py_str_type w = (Ok (PStr line), w1) /\
      derive_opt name src transform w
      = (Ok tv, with_opts (insert name tv) w1)).
Proof.
  split; [|split].
  - intros v H. now apply derive_opt_set.
  - intros sv tv Hn Hs Ht.
    rewrite derive_opt_cases, (is_unset_is_None _ _ Hn).
    rewrite (require_opt_set _ _ _ _ Hs), Ht. now split.
  - intros line rest tv Hn Hs Hin Ht w1.
    rewrite derive_opt_cases, (is_unset_is_None _ _ Hn).
    rewrite require_opt_cases, (is_unset_is_None _ _ Hs), Hin.
    unfold py_str_type; simpl. rewrite Ht. now split.
Qed.

Lemma derive_opt_spec_witness :
  derive_opt "package_snakecase" "package" py_snake_case w_derived
  = (Ok (PStr "my_cool_app"), w_derived) /\
  derive_opt "package_snakecase" "package" py_snake_case w_named
  = (Ok (PStr "my_cool_app"),
     with_opts (insert "package_snakecase" (PStr "my_cool_app")) w_named) /\
  derive_opt "package_snakecase" "package" py_snake_case w_fresh
  = (Ok (PStr "my_cool_app"),
     with_opts (insert "package_snakecase" (PStr "my_cool_app"))
       (with_opts (insert "package" (PStr "My Cool App"))
          (with_stdin [] (emit (Prompted "package: ") w_fresh)))).
Proof.
  split; [|split].
  - apply (proj1 (derive_opt_spec w_derived "package_snakecase" "package" py_snake_case)).
    split; [reflexivity | discriminate].
  - apply (proj1 (proj2 (derive_opt_spec w_named "package_snakecase" "package"
                           py_snake_case)) (PStr "My Cool App")).
    + reflexivity.
    + split; [reflexivity | discriminate].
    + reflexivity.
  - apply (proj2 (proj2 (derive_opt_spec w_fresh "package_snakecase" "package"
                           py_snake_case)) "My Cool App"%string []).
    + reflexivity.
    + reflexivity.
    + reflexivity.
    + reflexivity.
Defined.

(** *** Memoization *)

Lemma prompts_for_nil n : prompts_for n [] = 0.
Proof. reflexivity. Qed.

Lemma prompts_for_app n evs1 evs2 :
  prompts_for n (evs1 ++ evs2) = prompts_for n evs1 + prompts_for n evs2.
Proof. unfold prompts_for. now rewrite filter_app, length_app. Qed.

Lemma prompts_for_prompt n name :
  prompts_for n [Prompted (name +:+ ": ")] = if decide (n = name) then 1 else 0.
Proof.
  unfold prompts_for. rewrite filter_cons, filter_nil. simpl.
  case_decide as E; case_decide as E'; try reflexivity; exfalso.
  - apply String.eqb_eq, sapp_inv_tail in E. congruence.
  - subst. now rewrite String.eqb_refl in E.
Qed.

Lemma resolver_step_same {A} w (a : A) : resolver_step w (Ok a, w).
Proof.
  exists []. simpl. rewrite app_nil_r. split; [reflexivity|].
  split; [|split].
  - intros n v H. now split.
  - intros n. rewrite prompts_for_nil. lia.
  - intros n. rewrite prompts_for_nil. discriminate.
Qed.

Lemma require_opt_step name ty w :
  never_None ty -> resolver_step w (require_opt name ty w).
Proof.
  intros Hty. rewrite require_opt_cases.
  destruct (is_None (default PNone (opts w !! name))) eqn:N.
  - assert (Hne : forall n v, is_set w n v -> n <> name).
    { intros n v [E V] ->. rewrite E in N. destruct v; simpl in N; congruence. }
    destruct (stdin w) as [|line rest]; [|destruct (ty line) as [value|e] eqn:T];
      exists [Prompted (name +:+ ": ")]; simpl; (split; [reflexivity|]);
      (split; [|split]); try (intros n; rewrite prompts_for_prompt; case_decide; lia).
    + intros n v H. rewrite prompts_for_prompt, decide_False by eauto. now split.
    + intros n _. right; eauto.
    + intros n v H. rewrite prompts_for_prompt, decide_False by eauto.
      split; [reflexivity|]. destruct H as [E V]. split; [|assumption].
      simpl. rewrite lookup_insert_ne; [assumption|]. intros ->. now apply (Hne n v).
    + intros n. rewrite prompts_for_prompt. case_decide as E; [subst n|lia].
      intros _. left. exists value. split; [simpl; apply lookup_insert_eq|].
      intros ->. exact (Hty _ T).
    + intros n v H. rewrite prompts_for_prompt, decide_False by eauto. now split.
    + intros n _. right; eauto.
  - apply resolver_step_same.
Qed.

(** [derive_opt] prompts for the source only; the source then holds the
    typed line, unless the derived field is the source itself. *)
Lemma derive_opt_step_src name src tr w :
  (name = src -> forall line, tr (PStr line) <> Ok PNone) ->
  resolver_step w (derive_opt name src tr w).
Proof.
  intros Htr. rewrite derive_opt_cases.
  destruct (is_None (default PNone (opts w !! name))) eqn:N;
    [|apply resolver_step_same].
  assert (Hne : forall n v, is_set w n v -> n <> name).
  { intros n v [E V] ->. rewrite E in N. destruct v; simpl in N; congruence. }
  rewrite require_opt_cases.
  destruct (is_None (default PNone (opts w !! src))) eqn:Ns.
  - assert (Hns : forall n v, is_set w n v -> n <> src).
    { intros n v [E V] ->. rewrite E in Ns. destruct v; simpl in Ns; congruence. }
    destruct (stdin w) as [|line rest];
      [|unfold py_str_type; cbv beta iota;
        destruct (tr (PStr line)) as [derived|e] eqn:T];
      exists [Prompted (src +:+ ": ")]; simpl; (split; [reflexivity|]);
      (split; [|split]); try (intros n; rewrite prompts_for_prompt; case_decide; lia).
    + intros n v H. rewrite prompts_for_prompt, decide_False by eauto. now split.
    + intros n _. right; eauto.
    + intros n v H. rewrite prompts_for_prompt, decide_False by eauto.
      split; [reflexivity|]. destruct H as [E V]. split; [|assumption]. simpl.
      rewrite !lookup_insert_ne; [assumption| |]; intros ->;
        [now apply (Hns n v) | now apply (Hne n v)].
    + intros n. rewrite prompts_for_prompt. case_decide as E; [subst n|lia].
      intros _. left. destruct (decide (name = src)) as [->|Hd].
      * exists derived. split; [simpl; apply lookup_insert_eq|].
        intros ->. exact (Htr eq_refl _ T).
      * exists (PStr line). split; [|discriminate]. simpl.
        rewrite lookup_insert_ne by assumption. apply lookup_insert_eq.
    + intros n v H. rewrite prompts_for_prompt, decide_False by eauto.
      split; [reflexivity|]. destruct H as [E V]. split; [|assumption]. simpl.
      rewrite lookup_insert_ne; [assumption|]. intros ->. now apply (Hns n v).
    + intros n _. right; eauto.
  - destruct (tr (default PNone (opts w !! src))) as [derived|e];
      exists []; simpl; rewrite app_nil_r; (split; [reflexivity|]);
      (split; [|split]); try (intros n; rewrite prompts_for_nil; (lia || discriminate)).
    + intros n v H. split; [reflexivity|]. destruct H as [E V].
      split; [|assumption]. simpl. rewrite lookup_insert_ne; [assumption|].
      intros ->. now apply (Hne n v).
    + intros n v H. now split.
Qed.

Lemma derive_opt_step name src tr w :
  never_None tr -> resolver_step w (derive_opt name src tr w).
Proof. intros Htr. apply derive_opt_step_src. intros _ line. apply Htr. Qed.

Lemma run_call_step c w : stores_value c -> resolver_step w (run_call c w).
Proof. destruct c; simpl; auto using require_opt_step, derive_opt_step_src. Qed.

Lemma run_calls_step cs w : Forall stores_value cs -> resolver_step w (run_calls cs w).
Proof.
  intros Hcs; revert w; induction Hcs as [|c cs Hc Hcs IH]; intros w.
  - apply resolver_step_same.
  - simpl. unfold bind at 1.
    destruct (run_call_step c w Hc) as (evs1 & Hc1 & Hkeep1 & Hle1 & Hone1).
    destruct (run_call c w) as [[v|e] w1]; simpl in *.
    + unfold bind at 1.
      destruct (IH w1) as (evs2 & Hc2 & Hkeep2 & Hle2 & Hone2).
      assert (Hkeep : forall n x, is_set w n x ->
                prompts_for n (evs1 ++ evs2) = 0 /\ is_set (run_calls cs w1).2 n x).
      { intros n x H. destruct (Hkeep1 n x H) as [H0 H1].
        destruct (Hkeep2 n x H1) as [H2 H3].
        rewrite prompts_for_app, H0, H2. now split. }
      assert (Hle : forall n, prompts_for n (evs1 ++ evs2) <= 1).
      { intros n. rewrite prompts_for_app.
        pose proof (Hle1 n) as L1. pose proof (Hle2 n) as L2.
        destruct (prompts_for n evs1) as [|[|k]] eqn:P1; [lia| |lia].
        destruct (Hone1 n P1) as [[x Hx]|[e E]]; [|discriminate].
        destruct (Hkeep2 n x Hx) as [-> _]. lia. }
      assert (Hone : forall n, prompts_for n (evs1 ++ evs2) = 1 ->
                (exists x, is_set (run_calls cs w1).2 n x) \/
                exists e, (run_calls cs w1).1 = Raise e).
      { intros n. rewrite prompts_for_app. intros Hsum.
        pose proof (Hle1 n) as L1. pose proof (Hle2 n) as L2.
        destruct (prompts_for n evs1) as [|[|k]] eqn:P1; [| |lia].
        - now apply Hone2.
        - destruct (Hone1 n P1) as [[x Hx]|[e E]]; [|discriminate].
          left. exists x. now apply Hkeep2. }
      exists (evs1 ++ evs2).
      destruct (run_calls cs w1) as [[vs|e] w2]; simpl in *;
        rewrite Hc2, Hc1, <- app_assoc;
        (split; [reflexivity|]); (split; [assumption|]); (split; [assumption|]).
      * intros n Hn. destruct (Hone n Hn) as [?|[e E]]; [now left|discriminate].
      * intros n Hn. right; eauto.
    + exists evs1. simpl. split; [assumption|]. split; [assumption|].
      split; [assumption|]. intros n _. right; eauto.
Qed.

(** Whatever is passed for the conversion and the transform, a field that
    is set is neither prompted for nor changed. *)
Lemma resolver_keeps_same {A} w (a : A) : resolver_keeps w (Ok a, w).
Proof.
  exists []. simpl. rewrite app_nil_r. split; [reflexivity|].
  intros n v H. now split.
Qed.

Lemma require_opt_kept name ty w : resolver_keeps w (require_opt name ty w).
Proof.
  rewrite require_opt_cases.
  destruct (is_None (default PNone (opts w !! name))) eqn:N;
    [|apply resolver_keeps_same].
  assert (Hne : forall n v, is_set w n v -> n <> name).
  { intros n v [E V] ->. rewrite E in N. destruct v; simpl in N; congruence. }
  destruct (stdin w) as [|line rest]; [|destruct (ty line) as [value|e]];
    exists [Prompted (name +:+ ": ")]; simpl; (split; [reflexivity|]);
    intros n v H; rewrite prompts_for_prompt, decide_False by eauto;
    (split; [reflexivity|]); try assumption.
  destruct H as [E V]. split; [|assumption]. simpl.
  rewrite lookup_insert_ne; [assumption|]. intros ->. now apply (Hne n v).
Qed.

Lemma derive_opt_kept name src tr w : resolver_keeps w (derive_opt name src tr w).
Proof.
  rewrite derive_opt_cases.
  destruct (is_None (default PNone (opts w !! name))) eqn:N;
    [|apply resolver_keeps_same].
  assert (Hne : forall n v, is_set w n v -> n <> name).
  { intros n v [E V] ->. rewrite E in N. destruct v; simpl in N; congruence. }
  destruct (require_opt_kept src py_str_type w) as (evs & Hc & Hkeep).
  destruct (require_opt src py_str_type w) as [[value|e] w1]; simpl in *;
    [destruct (tr value) as [derived|e]|]; exists evs; simpl;
    (split; [assumption|]); try assumption.
  intros n v H. destruct (Hkeep n v H) as [H0 [E V]]. split; [assumption|].
  split; [|assumption]. simpl. rewrite lookup_insert_ne; [assumption|].
  intros ->. now apply (Hne n v).
Qed.

Lemma run_calls_kept cs w : resolver_keeps w (run_calls cs w).
Proof.
  revert w; induction cs as [|c cs IH]; intros w; [apply resolver_keeps_same|].
  simpl. unfold bind at 1.
  assert (H1 : resolver_keeps w (run_call c w))
    by (destruct c; [apply require_opt_kept | apply derive_opt_kept]).
  destruct H1 as (evs1 & Hc1 & Hkeep1).
  destruct (run_call c w) as [[v|e] w1]; simpl in *.
  - unfold bind at 1. destruct (IH w1) as (evs2 & Hc2 & Hkeep2).
    exists (evs1 ++ evs2).
    assert (Hkeep : forall n x, is_set w n x ->
              prompts_for n (evs1 ++ evs2) = 0 /\ is_set (run_calls cs w1).2 n x).
    { intros n x H. destruct (Hkeep1 n x H) as [H0 H1].
      destruct (Hkeep2 n x H1) as [H2 H3].
      rewrite prompts_for_app, H0, H2. now split. }
    destruct (run_calls cs w1) as [[vs|e] w2]; simpl in *;
      rewrite Hc2, Hc1, <- app_assoc; (split; [reflexivity | assumption]).
  - exists evs1. now split.
Qed.

(** C2. Take any run of [require_opt] and [derive_opt] requests, with any
    conversions and transforms, from any state of the options.  The run
    only adds console events.  A field that holds a value other than [None]
    is not prompted for in the run and holds the same value after it, and a
    further [require_opt] or [derive_opt] request for it returns that value
    and leaves the whole world unchanged: nothing is read, written,
    recomputed or overwritten.  Hence, when the answer to every prompt
    leaves the field that was asked for set, no field is prompted for more
    than once in the run; this is so for the conversion [str], which is
    the only one the script passes, and for every transform that turns a
    string into something other than [None], the default transform
    included. *)
Theorem resolver_memoizes (cs : list call) (w : world) :
  let w' := (run_calls cs w).2 in
  exists evs,
    console w' = console w ++ evs /\
    (forall name v,
        is_set w name v ->
        prompts_for name evs = 0 /\
        is_set w' name v /\
        forall ty src tr,
          require_opt name ty w' = (Ok v, w') /\
          derive_opt name src tr w' = (Ok v, w')) /\
    (Forall stores_value cs -> forall name, prompts_for name evs <= 1).
Proof.
  intros w'.
  destruct (run_calls_kept cs w) as (evs & Hc & Hkeep).
  exists evs. split; [assumption|]. split.
  - intros name v H. destruct (Hkeep name v H) as [H0 H1].
    split; [assumption|]. split; [assumption|].
    intros ty src tr. split.
    + now apply require_opt_set.
    + now apply derive_opt_set.
  - intros Hcs name.
    destruct (run_calls_step cs w Hcs) as (evs' & Hc' & _ & Hle & _).
    rewrite Hc in Hc'. apply app_inv_head in Hc'. subst evs'. apply Hle.
Qed.

Lemma sample_calls_identity_ok : Forall stores_value sample_calls_identity.
Proof.
  repeat constructor; simpl; try discriminate; intros _ line; discriminate.
Qed.

Lemma resolver_memoizes_witness :
  Forall stores_value sample_calls_identity /\
  exists evs,
    console (run_calls sample_calls_identity w_fresh).2 = console w_fresh ++ evs /\
    forall name, prompts_for name evs <= 1.
Proof.
  split; [exact sample_calls_identity_ok|].
  destruct (resolver_memoizes sample_calls_identity w_fresh) as (evs & Hc & _ & Hle).
  exists evs. split; [exact Hc | exact (Hle sample_calls_identity_ok)].
Defined.

(** The condition on the answers cannot be dropped: a conversion that
    answers [None] leaves the field unset, and the next request prompts for
    it again. *)
Example resolver_prompts_again_after_None :
  console (run_calls [Require "ci" sample_to_None; Require "ci" py_str_type]
             w_two_lines).2
  = [Prompted "ci: "; Prompted "ci: "].
Proof. reflexivity. Qed.

End Resolver.

(** ** The column layout *)

Lemma omap_map {A B C} (k : B -> option C) (j : A -> B) (l : list A) :
  omap k (map j l) = omap (fun x => k (j x)) l.
Proof.
  induction l as [|x l IH]; [reflexivity|]. simpl.
  destruct (k (j x)); simpl; f_equal; apply IH.
Qed.

Section Columnize.

Context {A : Type}.
Implicit Types (l : list A) (f g h : nat -> option A).

(** Reading a list index by index over a long enough range gives the list
    back. *)
Lemma omap_shift (k : nat -> option A) (js : list nat) :
  omap k (map S js) = omap (fun i => k (S i)) js.
Proof. apply omap_map. Qed.

Lemma omap_lookup_seq l m :
  length l <= m -> omap (fun i => l !! i) (seq 0 m) = l.
Proof.
  revert m; induction l as [|x l IH]; intros m Hm.
  - induction (seq 0 m) as [|i js IHjs]; [reflexivity | exact IHjs].
  - destruct m as [|m]; [simpl in Hm; lia|].
    simpl in Hm. rewrite <- cons_seq. simpl. f_equal.
    rewrite <- seq_shift. rewrite omap_shift. apply IH. lia.
Qed.

(** Gathering three optional items per index is, up to order, gathering
    each of the three families on its own. *)
Lemma gather_three f g h (js : list nat) :
  concat (map (fun i => option_list (f i) ++ option_list (g i) ++ option_list (h i)) js)
  ≡ₚ omap f js ++ omap g js ++ omap h js.
Proof.
  induction js as [|i js IH]; [reflexivity|].
  simpl. rewrite IH.
  destruct (f i) as [x|], (g i) as [y|], (h i) as [z|]; simpl;
    repeat (rewrite <- ?Permutation_middle; try apply Permutation_skip);
    reflexivity.
Qed.

Lemma zip_longest_fst (l1 l2 l3 : list A) :
  omap (fun row : option A * option A * option A => row.1.1) (zip_longest l1 l2 l3) = l1.
Proof.
  unfold zip_longest. rewrite omap_map. simpl. apply omap_lookup_seq. lia.
Qed.

Lemma zip_longest_snd (l1 l2 l3 : list A) :
  omap (fun row : option A * option A * option A => row.1.2) (zip_longest l1 l2 l3) = l2.
Proof.
  unfold zip_longest. rewrite omap_map. simpl. apply omap_lookup_seq. lia.
Qed.

Lemma zip_longest_thd (l1 l2 l3 : list A) :
  omap (fun row : option A * option A * option A => row.2) (zip_longest l1 l2 l3) = l3.
Proof.
  unfold zip_longest. rewrite omap_map. simpl. apply omap_lookup_seq. lia.
Qed.

Lemma zip_longest_items (l1 l2 l3 : list A) :
  concat (map (fun row : option A * option A * option A =>
                 option_list row.1.1 ++ option_list row.1.2 ++ option_list row.2)
              (zip_longest l1 l2 l3))
  ≡ₚ l1 ++ l2 ++ l3.
Proof.
  unfold zip_longest. rewrite map_map. simpl.
  rewrite (gather_three (fun i => l1 !! i) (fun i => l2 !! i) (fun i => l3 !! i)).
  rewrite !omap_lookup_seq by lia. reflexivity.
Qed.

End Columnize.

Lemma repeat_char_length k n : String.length (Str.repeat_char k n) = n.
Proof. induction n as [|n IH]; simpl; [reflexivity | now rewrite IH]. Qed.

Lemma ljust_left_justified width s : left_justified width s (ljust width s).
Proof.
  unfold left_justified, ljust. split; [eauto|].
  rewrite slength_app, repeat_char_length. lia.
Qed.

Lemma columns_slices (lst : list string) :
  let n := length lst / 3 in
  columns lst = (take n lst, take n (drop n lst), drop (2 * n) lst).
Proof.
  unfold columns, py_slice, py_slice_from. simpl.
  rewrite drop_0, take_drop_commute. repeat f_equal; lia.
Qed.

(** C6. For a list of [N] items, [columnize] cuts the list at [N/3] and at
    [2*(N/3)] into three consecutive slices that together are the list; the
    first, second and third entries of the zipped rows are these slices in
    order, so the items across the rows are the items of the list, each as
    often as in the list.  Every emitted line shows the first two entries of
    its row left-justified in 20 characters and then the third, separated by
    one space, an absent entry counting as the empty string. *)
Theorem columnize_spec (lst : list string) :
  let n := length lst / 3 in
  let rows := columnize_rows lst in
  columns lst = (take n lst, take n (drop n lst), drop (2 * n) lst) /\
  take n lst ++ take n (drop n lst) ++ drop (2 * n) lst = lst /\
  omap (fun row : option string * option string * option string => row.1.1) rows
    = take n lst /\
  omap (fun row : option string * option string * option string => row.1.2) rows
    = take n (drop n lst) /\
  omap (fun row : option string * option string * option string => row.2) rows
    = drop (2 * n) lst /\
  row_items rows ≡ₚ lst /\
  Forall2 (fun row line =>
             exists f1 f2,
               line = f1 +:+ " " +:+ f2 +:+ " " +:+ default "" row.2 /\
               left_justified 20 (default "" row.1.1) f1 /\
               left_justified 20 (default "" row.1.2) f2)
          rows (columnize lst).
Proof.
  intros n rows.
  assert (Hcat : take n lst ++ take n (drop n lst) ++ drop (2 * n) lst = lst).
  { replace (2 * n) with (n + n) by lia. rewrite <- (drop_drop lst n n).
    now rewrite !take_drop. }
  pose proof (columns_slices lst) as Hcols. fold n in Hcols.
  subst rows. unfold columnize, columnize_rows, row_items. rewrite Hcols.
  split; [reflexivity|]. split; [exact Hcat|].
  split; [apply zip_longest_fst|]. split; [apply zip_longest_snd|].
  split; [apply zip_longest_thd|]. split.
  - rewrite zip_longest_items. now rewrite Hcat.
  - induction (zip_longest (take n lst) (take n (drop n lst)) (drop (2 * n) lst))
      as [|[[a b] c] rows IH]; simpl; constructor; [|exact IH].
    exists (ljust 20 (default "" a)), (ljust 20 (default "" b)).
    split; [reflexivity|]. split; apply ljust_left_justified.
Qed.

(** The listing of the supported licenses: twelve lines, the last with
    an entry in the third column only. *)
Example columnize_licenses :
  columnize SUPPORTED_LICENSES =
  [ "afl-3.0              ecl-2.0              mit";
    "agpl-3.0             epl-1.0              mpl-2.0";
    "apache-2.0           epl-2.0              ms-pl";
    "artistic-2.0         eupl-1.1             ms-rl";
    "bsd-2-clause         eupl-1.2             ncsa";
    "bsd-3-clause-clear   gpl-2.0              ofl-1.1";
    "bsd-3-clause         gpl-3.0              osl-3.0";
    "bsl-1.0              isc                  postgresql";
    "cc-by-4.0            lgpl-2.1             unlicense";
    "cc-by-sa-4.0         lgpl-3.0             upl-1.0";
    "cc0-1.0              lppl-1.3c            wtfpl";
    "                                          zlib" ].
Proof. reflexivity. Qed.

(** ** The help helper *)

Section Help.

Lemma emit_all_nil w : emit_all [] w = w.
Proof. destruct w; unfold emit_all; simpl. now rewrite app_nil_r. Qed.

Lemma emit_all_emit_all evs1 evs2 w :
  emit_all evs2 (emit_all evs1 w) = emit_all (evs1 ++ evs2) w.
Proof. unfold emit_all; simpl. now rewrite app_assoc. Qed.

Lemma print_run line w : print line w = (Ok tt, emit_all (printed [line]) w).
Proof. reflexivity. Qed.

Lemma print_all_run rows w : print_all rows w = (Ok tt, emit_all (printed rows) w).
Proof.
  revert w; induction rows as [|row rows IH]; intros w.
  - simpl. unfold ret. now rewrite emit_all_nil.
  - simpl. unfold bind. rewrite print_run, IH, emit_all_emit_all. reflexivity.
Qed.

Lemma printed_app l1 l2 : printed (l1 ++ l2) = printed l1 ++ printed l2.
Proof. unfold printed. apply map_app. Qed.

(** C9. For every topic the help helper ends with [SystemExit(0)].  Before
    that it writes the usage text for the empty topic; for a topic that
    contains ["license"] the heading, the thirty-four supported licenses
    in three columns (twelve lines, the first two columns twenty
    characters wide, the last line with its third column only) and the
    note on the default license; and the no-help message naming the topic
    otherwise.  Nothing but the console changes: no file is written, and
    the exit code is never another one. *)
Theorem display_help_spec (p : parser) (help_target : string) (w : world) :
  let out :=
    if String.eqb help_target "" then
      [Wrote (format_help p)]
    else if Str.contains "license" help_target then
      printed
        [ "Supported licenses:";
          "afl-3.0              ecl-2.0              mit";
          "agpl-3.0             epl-1.0              mpl-2.0";
          "apache-2.0           epl-2.0              ms-pl";
          "artistic-2.0         eupl-1.1             ms-rl";
          "bsd-2-clause         eupl-1.2             ncsa";
          "bsd-3-clause-clear   gpl-2.0              ofl-1.1";
          "bsd-3-clause         gpl-3.0              osl-3.0";
          "bsl-1.0              isc                  postgresql";
          "cc-by-4.0            lgpl-2.1             unlicense";
          "cc-by-sa-4.0         lgpl-3.0             upl-1.0";
          "cc0-1.0              lppl-1.3c            wtfpl";
          "                                          zlib";
          "If no value is provided, MIT license is used." ]
    else
      printed ["No help available for " +:+ dquote +:+ help_target +:+ dquote] in
  display_help p help_target w = (Raise (SystemExit 0), emit_all out w) /\
  files (display_help p help_target w).2 = files w /\
  forall code, (display_help p help_target w).1 = Raise (SystemExit code) -> code = 0%Z.
Proof.
  intros out.
  assert (H : display_help p help_target w = (Raise (SystemExit 0), emit_all out w)).
  { subst out. unfold display_help, bind at 1.
    destruct (String.eqb help_target ""); [reflexivity|].
    destruct (Str.contains "license" help_target); [|reflexivity].
    unfold bind. rewrite print_run, print_all_run, print_run, !emit_all_emit_all.
    rewrite <- !printed_app, columnize_licenses. reflexivity. }
  rewrite H. split; [reflexivity|]. split; [reflexivity|].
  simpl. intros code [= <-]. reflexivity.
Qed.

End Help.

(** ** Replacing a token *)

Section Replace.

Implicit Types (old new tok sep s r p x : string) (k : ascii)
  (pieces : list string).

Lemma prefix_app old r : String.prefix old (old +:+ r) = true.
Proof. apply prefix_spec. now exists r. Qed.

Lemma occurs_nil_inv x : Str.occurs x "" -> x = "".
Proof.
  intros [a [b H]]. symmetry in H.
  apply sapp_eq_nil in H as [_ H]. now apply sapp_eq_nil in H as [H _].
Qed.

Lemma occurs_head_mem k x s : Str.occurs (String k x) s -> Str.mem k s = true.
Proof.
  intros [a [b ->]]. rewrite mem_app, sapp_cons, mem_head. apply orb_true_r.
Qed.

Lemma mem_middle k a b : Str.mem k (a +:+ String k b) = true.
Proof. rewrite mem_app, mem_head. apply orb_true_r. Qed.

(** *** The scan *)

Lemma replace_from_skip old new u r :
  Str.replace_from old new (String.length u) (u +:+ r) = Str.replace_from old new 0 r.
Proof. induction u as [|k u IH]; [reflexivity | rewrite sapp_cons; exact IH]. Qed.

Lemma replace_from_match old new r :
  old <> "" ->
  Str.replace_from old new 0 (old +:+ r) = new +:+ Str.replace_from old new 0 r.
Proof.
  destruct old as [|k o]; [congruence|]. intros _.
  pose proof (prefix_app (String k o) r) as P.
  rewrite sapp_cons in *. cbn [Str.replace_from]. rewrite P.
  cbn [String.length]. rewrite Nat.sub_succ, Nat.sub_0_r.
  now rewrite replace_from_skip.
Qed.

Lemma replace_from_nomatch old new k s :
  String.prefix old (String k s) = false ->
  Str.replace_from old new 0 (String k s) = String k (Str.replace_from old new 0 s).
Proof. intros P. cbn [Str.replace_from]. now rewrite P. Qed.

(** *** Joining pieces *)

Lemma concat_two sep p q pieces :
  String.concat sep (p :: q :: pieces) = p +:+ sep +:+ String.concat sep (q :: pieces).
Proof. reflexivity. Qed.

Lemma concat_cons_head sep k p pieces :
  String.concat sep (String k p :: pieces) = String k (String.concat sep (p :: pieces)).
Proof. destruct pieces; [reflexivity | now rewrite !concat_two, sapp_cons]. Qed.

Lemma concat_head sep p pieces :
  exists t, String.concat sep (p :: pieces) = p +:+ t.
Proof.
  destruct pieces as [|q pieces].
  - exists "". simpl. now rewrite sapp_nil_r.
  - eexists. apply concat_two.
Qed.

(** The scan cuts [s] at the matches it replaces: [s] is the pieces
    joined by [old], no piece contains [old], and the result is the same
    pieces joined by [new]. *)
Lemma replace_from_pieces old :
  old <> "" ->
  forall n s, String.length s <= n ->
  exists pieces,
    pieces <> [] /\
    s = String.concat old pieces /\
    Forall (fun p => ~ Str.occurs old p) pieces /\
    forall new, Str.replace_from old new 0 s = String.concat new pieces.
Proof.
  intros Hold. induction n as [|n IH]; intros s Hn.
  - destruct s; [|simpl in Hn; lia]. exists [""].
    repeat split; try easy. constructor; [|constructor].
    intros H%occurs_nil_inv. contradiction.
  - destruct s as [|k s].
    { exists [""]. repeat split; try easy. constructor; [|constructor].
      intros H%occurs_nil_inv. contradiction. }
    destruct (String.prefix old (String k s)) eqn:P.
    + apply prefix_spec in P as [r Hr].
      assert (Hlen : String.length r <= n).
      { apply (f_equal String.length) in Hr. rewrite slength_app in Hr.
        simpl in Hr, Hn. destruct old; [congruence|]. simpl in Hr. lia. }
      destruct (IH r Hlen) as ([|p ps] & Hne & Hs & Hno & Hrep); [congruence|].
      exists ("" :: p :: ps). rewrite Hr. split; [easy|]. split; [|split].
      * rewrite concat_two, sapp_nil_l. now rewrite <- Hs.
      * constructor; [|exact Hno]. intros H%occurs_nil_inv. contradiction.
      * intros new. rewrite replace_from_match by assumption.
        now rewrite Hrep, concat_two, sapp_nil_l.
    + assert (Hlen : String.length s <= n) by (simpl in Hn; lia).
      destruct (IH s Hlen) as ([|p ps] & Hne & Hs & Hno & Hrep); [congruence|].
      exists (String k p :: ps). split; [easy|]. split; [|split].
      * rewrite concat_cons_head. now rewrite <- Hs.
      * apply Forall_cons in Hno as [Hp Hps]. constructor; [|exact Hps].
        intros Hocc. apply contains_spec in Hocc.
        rewrite contains_cons, orb_true_iff in Hocc. destruct Hocc as [Hpre|Hin].
        -- apply prefix_spec in Hpre as [b Hb].
           destruct (concat_head old p ps) as [t Ht].
           assert (String.prefix old (String k s) = true); [|congruence].
           apply prefix_spec. exists (b +:+ t).
           rewrite Hs, Ht, <- sapp_cons, Hb. apply sapp_assoc.
        -- apply contains_spec in Hin. contradiction.
      * intros new. rewrite replace_from_nomatch by assumption.
        now rewrite Hrep, concat_cons_head.
Qed.

Lemma replace_pieces old s :
  old <> "" ->
  exists pieces,
    pieces <> [] /\
    s = String.concat old pieces /\
    Forall (fun p => ~ Str.occurs old p) pieces /\
    forall new, Str.replace old new s = String.concat new pieces.
Proof.
  intros Hold.
  destruct (replace_from_pieces old Hold (String.length s) s (le_n _))
    as (pieces & H1 & H2 & H3 & H4).
  exists pieces. repeat split; try assumption.
  intros new. destruct old; [congruence | apply H4].
Qed.

(** *** Occurrences in joined pieces *)

Lemma occurs_concat x sep p pieces :
  In p pieces -> Str.occurs x p -> Str.occurs x (String.concat sep pieces).
Proof.
  induction pieces as [|q pieces IH]; [easy|].
  intros [->|Hin] Hx.
  - destruct (concat_head sep p pieces) as [t ->]. now apply occurs_app_l.
  - destruct pieces as [|q' pieces]; [easy|].
    rewrite concat_two. apply occurs_app_r, occurs_app_r. now apply IH.
Qed.

Lemma occurs_sep_concat sep p q pieces :
  Str.occurs sep (String.concat sep (p :: q :: pieces)).
Proof. rewrite concat_two. now exists p, (String.concat sep (q :: pieces)). Qed.

(** Joining pieces free of [tok] with a text [new] creates no [tok],
    provided the first character of [tok] is not in [new] and the first
    character of [new] is not in [tok]. *)
Lemma no_occurrence_concat tok new pieces (t0 : ascii) (tk : string) (n0 : ascii) (nw : string) :
  tok = String t0 tk -> new = String n0 nw ->
  Str.mem t0 new = false -> Str.mem n0 tok = false ->
  Forall (fun p => ~ Str.occurs tok p) pieces ->
  ~ Str.occurs tok (String.concat new pieces).
Proof.
  intros Htok Hnew Ht Hn Hall.
  induction Hall as [|p pieces Hp Hall IH].
  - simpl. intros H%occurs_nil_inv. congruence.
  - destruct pieces as [|q pieces]; [exact Hp|].
    rewrite concat_two. set (R := String.concat new (q :: pieces)) in *.
    assert (HnewR : ~ Str.occurs tok (new +:+ R)).
    { intros H. apply occurs_app in H as [H|[H|H]].
      - rewrite Htok in H. apply occurs_head_mem in H. congruence.
      - contradiction.
      - destruct H as (u & v & a' & b' & Hu & Hv & Hx & Ha & Hb).
        destruct u as [|k u]; [congruence|].
        rewrite Htok, sapp_cons in Hx. injection Hx as <- _.
        rewrite Ha, mem_middle in Ht. discriminate. }
    intros H. apply occurs_app in H as [H|[H|H]]; [contradiction..|].
    destruct H as (u & v & a' & b' & Hu & Hv & Hx & Ha & Hb).
    destruct v as [|k v]; [congruence|].
    rewrite Hnew, !sapp_cons in Hb. injection Hb as <- _.
    rewrite Hx, mem_middle in Hn. discriminate.
Qed.

(** An occurrence of [x] in pieces joined by [sep] lies inside one piece,
    provided [x] and [sep] cannot overlap. *)
Lemma occurs_concat_inv x sep pieces (x0 : ascii) (xt : string) (s0 : ascii) (st : string) :
  x = String x0 xt -> sep = String s0 st ->
  Str.mem s0 xt = false -> Str.mem x0 st = false ->
  Str.contains x sep = false -> String.prefix sep x = false ->
  Str.occurs x (String.concat sep pieces) ->
  Exists (Str.occurs x) pieces.
Proof.
  intros Hx Hsep H1 H2 H3 H4.
  induction pieces as [|p pieces IH].
  - simpl. intros H%occurs_nil_inv. congruence.
  - destruct pieces as [|q pieces]; [now constructor|].
    rewrite concat_two. set (R := String.concat sep (q :: pieces)) in *.
    intros H. apply occurs_app in H as [H|[H|H]].
    + now constructor.
    + apply occurs_app in H as [H|[H|H]].
      * apply contains_spec in H. congruence.
      * apply Exists_cons_tl. now apply IH.
      * exfalso. destruct H as (u & v & a' & b' & Hu & Hv & Hxx & Ha & Hb).
        destruct u as [|k u]; [congruence|].
        rewrite Hx, sapp_cons in Hxx. injection Hxx as <- Hxt.
        destruct a' as [|k' a'].
        -- rewrite sapp_nil_l in Ha.
           assert (String.prefix sep x = true); [|congruence].
           apply prefix_spec. exists v. now rewrite Ha, Hx, sapp_cons, Hxt.
        -- rewrite Hsep, sapp_cons in Ha. injection Ha as <- Hst.
           rewrite Hst, mem_middle in H2. discriminate.
    + exfalso. destruct H as (u & v & a' & b' & Hu & Hv & Hxx & Ha & Hb).
      destruct v as [|k v]; [congruence|].
      rewrite Hsep, !sapp_cons in Hb. injection Hb as <- _.
      destruct u as [|k' u]; [congruence|].
      rewrite Hx, sapp_cons in Hxx. injection Hxx as <- Hxt.
      rewrite Hxt, mem_middle in H1. discriminate.
Qed.

(** A text that contains [tok] is cut by it into two pieces at least. *)
Lemma occurs_two_pieces tok s pieces :
  pieces <> [] -> s = String.concat tok pieces ->
  Forall (fun p => ~ Str.occurs tok p) pieces ->
  Str.occurs tok s ->
  exists p q rest, pieces = p :: q :: rest.
Proof.
  intros Hne Hs Hall Hocc.
  destruct pieces as [|p [|q rest]]; [congruence| |eauto].
  simpl in Hs. subst s. apply Forall_cons in Hall as [Hp _]. contradiction.
Qed.

End Replace.

(** ** The license renderer *)

(** What the two replacements do to a license text for the year 2024 and
    the author Jane Doe. *)
Lemma license_tokens (body : string) :
  let rendered := Str.replace "[fullname]" "Jane Doe" (Str.replace "[year]" "2024" body) in
  Str.contains "[year]" rendered = false /\
  Str.contains "[fullname]" rendered = false /\
  (Str.contains "[year]" body = true -> Str.contains "2024" rendered = true) /\
  (Str.contains "[fullname]" body = true -> Str.contains "Jane Doe" rendered = true).
Proof.
  intros rendered. subst rendered.
  destruct (replace_pieces "[year]" body ltac:(discriminate))
    as (ps & Hps & Hbody & Hno1 & Hrep1).
  set (text1 := Str.replace "[year]" "2024" body).
  destruct (replace_pieces "[fullname]" text1 ltac:(discriminate))
    as (qs & Hqs & Htext1 & Hno2 & Hrep2).
  rewrite Hrep2.
  assert (Hyear1 : ~ Str.occurs "[year]" text1).
  { unfold text1. rewrite Hrep1.
    eapply no_occurrence_concat; [reflexivity..|exact Hno1]. }
  assert (Hyear_qs : Forall (fun q => ~ Str.occurs "[year]" q) qs).
  { apply Forall_forall. intros q Hq Hocc. apply Hyear1. rewrite Htext1.
    apply (occurs_concat _ _ q); [now apply list_elem_of_In | exact Hocc]. }
  split; [|split; [|split]].
  - apply not_contains_spec.
    eapply no_occurrence_concat; [reflexivity..|exact Hyear_qs].
  - apply not_contains_spec.
    eapply no_occurrence_concat; [reflexivity..|exact Hno2].
  - intros Hin%contains_spec. apply contains_spec.
    destruct (occurs_two_pieces _ _ _ Hps Hbody Hno1 Hin) as (p & q & rest & ->).
    assert (H2024 : Str.occurs "2024" text1).
    { unfold text1. rewrite Hrep1. apply occurs_sep_concat. }
    rewrite Htext1 in H2024.
    eapply occurs_concat_inv in H2024; [|reflexivity..].
    apply Exists_exists in H2024 as (q' & Hq' & Hocc).
    apply (occurs_concat _ _ q'); [now apply list_elem_of_In | exact Hocc].
  - intros Hin%contains_spec. apply contains_spec.
    rewrite Hbody in Hin.
    eapply occurs_concat_inv in Hin; [|reflexivity..].
    apply Exists_exists in Hin as (p' & Hp' & Hocc).
    assert (Hfull : Str.occurs "[fullname]" text1).
    { unfold text1. rewrite Hrep1.
      apply (occurs_concat _ _ p'); [now apply list_elem_of_In | exact Hocc]. }
    destruct (occurs_two_pieces _ _ _ Hqs Htext1 Hno2 Hfull) as (p & q & rest & ->).
    apply occurs_sep_concat.
Qed.

Section LicenseFacts.

Variable requests_get : string -> outcome response.
Variable json_loads : string -> outcome json.

(** C7. When the fetch succeeds, the file [LICENSE] is written with the
    fetched text in which first ["[year]"] has been replaced by the year
    and then ["[fullname]"] by the author name: each text is cut at the
    occurrences of the token into pieces free of it, and the pieces are
    joined again by the replacement.  For the year 2024 and the author
    Jane Doe the written text contains neither token any more, and it
    contains ["2024"] and ["Jane Doe"] whenever the fetched text contained
    the respective token. *)
Theorem create_license_md_renders
    (w : world) (license : pyval) (resp : response) (data : json)
    (body : string) (d : datetime) (author : string) :
  opts w !! "license" = Some license ->
  requests_get (license_url license) = Ok resp ->
  status_code resp = 200%Z ->
  json_loads (text resp) = Ok data ->
  json_getitem "text" data = Ok (JStr body) ->
  opts w !! "now" = Some (PDateTime d) ->
  opts w !! "author_name" = Some (PStr author) ->
  let text1 := Str.replace "[year]" (strftime_Y d) body in
  let rendered := Str.replace "[fullname]" author text1 in
  create_license_md requests_get json_loads w
  = (Ok tt, with_files (insert "LICENSE" rendered) w) /\
  (exists pieces,
      body = String.concat "[year]" pieces /\
      Forall (fun p => Str.contains "[year]" p = false) pieces /\
      text1 = String.concat (strftime_Y d) pieces) /\
  (exists pieces,
      text1 = String.concat "[fullname]" pieces /\
      Forall (fun p => Str.contains "[fullname]" p = false) pieces /\
      rendered = String.concat author pieces) /\
  (year d = 2024 -> author = "Jane Doe" ->
   Str.contains "[year]" rendered = false /\
   Str.contains "[fullname]" rendered = false /\
   (Str.contains "[year]" body = true -> Str.contains "2024" rendered = true) /\
   (Str.contains "[fullname]" body = true ->
    Str.contains "Jane Doe" rendered = true)).
Proof.
  intros Hlic Hget Hstatus Hjson Hitem Hnow Hauthor text1 rendered.
  split; [|split; [|split]].
  - unfold create_license_md, bind, getattr, lift, write_file.
    rewrite Hlic, Hget, Hstatus. simpl. rewrite Hjson, Hitem. simpl.
    rewrite Hnow. simpl. rewrite Hauthor. reflexivity.
  - destruct (replace_pieces "[year]" body ltac:(discriminate))
      as (ps & _ & Hbody & Hno & Hrep).
    exists ps. split; [exact Hbody|]. split; [|apply Hrep].
    eapply Forall_impl; [exact Hno|]. intros p Hp. now apply not_contains_spec.
  - destruct (replace_pieces "[fullname]" text1 ltac:(discriminate))
      as (qs & _ & Htext1 & Hno & Hrep).
    exists qs. split; [exact Htext1|]. split; [|apply Hrep].
    eapply Forall_impl; [exact Hno|]. intros p Hp. now apply not_contains_spec.
  - intros Hy ->. subst rendered text1. unfold strftime_Y. rewrite Hy.
    exact (license_tokens body).
Qed.

(** C8. When the answer of the license service has a status other than
    200, the renderer logs the failure and ends with [SystemExit(1)]; no
    file is written and nothing but the log changes. *)
Theorem create_license_md_fetch_failure
    (w : world) (license : pyval) (resp : response) :
  opts w !! "license" = Some license ->
  requests_get (license_url license) = Ok resp ->
  status_code resp <> 200%Z ->
  create_license_md requests_get json_loads w
  = (Raise (SystemExit 1), with_errlog "Unable to download license text" w) /\
  files (create_license_md requests_get json_loads w).2 = files w.
Proof.
  intros Hlic Hget Hstatus.
  assert (H : create_license_md requests_get json_loads w
              = (Raise (SystemExit 1), with_errlog "Unable to download license text" w)).
  { unfold create_license_md, bind, getattr, lift, logger_error, raise.
    rewrite Hlic, Hget. apply Z.eqb_neq in Hstatus. now rewrite Hstatus. }
  rewrite H. split; reflexivity.
Qed.

End LicenseFacts.

Lemma create_license_md_renders_witness :
  create_license_md sample_requests_get sample_json_loads (w_license "mit")
  = (Ok tt,
     with_files (insert "LICENSE" "Copyright (c) 2024 Jane Doe") (w_license "mit")) /\
  Str.contains "[year]" "Copyright (c) 2024 Jane Doe" = false /\
  Str.contains "[fullname]" "Copyright (c) 2024 Jane Doe" = false /\
  Str.contains "2024" "Copyright (c) 2024 Jane Doe" = true /\
  Str.contains "Jane Doe" "Copyright (c) 2024 Jane Doe" = true.
Proof.
  destruct (create_license_md_renders sample_requests_get sample_json_loads
              (w_license "mit") (PStr "mit")
              {| status_code := 200; text := sample_body |}
              (JObj {[ "text" := JStr "Copyright (c) [year] [fullname]" ]})
              "Copyright (c) [year] [fullname]" sample_now "Jane Doe"
              eq_refl eq_refl eq_refl eq_refl eq_refl eq_refl eq_refl)
    as (Hrun & _ & _ & Htokens).
  destruct (Htokens eq_refl eq_refl) as (Hy & Hf & H2024 & Hjane).
  split; [exact Hrun|]. split; [exact Hy|]. split; [exact Hf|].
  split; [exact (H2024 eq_refl) | exact (Hjane eq_refl)].
Defined.

Lemma create_license_md_fetch_failure_witness :
  create_license_md sample_requests_get sample_json_loads (w_license "bogus")
  = (Raise (SystemExit 1),
     with_errlog "Unable to download license text" (w_license "bogus")) /\
  files (create_license_md sample_requests_get sample_json_loads (w_license "bogus")).2
  = files (w_license "bogus").
Proof.
  apply (create_license_md_fetch_failure sample_requests_get sample_json_loads
           (w_license "bogus") (PStr "bogus")
           {| status_code := 404; text := "Not Found" |});
    [reflexivity | reflexivity | discriminate].
Defined.

(** ** More on the options resolver *)

Section ResolverEdges.

Implicit Types (w : world) (name src : string) (v : pyval).

(** X1. At end of input a request for a field that is not set raises
    [EOFError]; the prompt has been written and nothing is stored.  The
    same holds for [derive_opt] when neither the field nor its source is
    set. *)
Theorem resolver_end_of_input w name src
    (ty : string -> outcome pyval) (tr : pyval -> outcome pyval) :
  stdin w = [] ->
  (is_unset w name ->
   require_opt name ty w = (Raise EOFError, emit (Prompted (name +:+ ": ")) w)) /\
  (is_unset w name -> is_unset w src ->
   derive_opt name src tr w = (Raise EOFError, emit (Prompted (src +:+ ": ")) w)).
Proof.
  intros Hin. split.
  - intros Hn. now rewrite require_opt_cases, (is_unset_is_None _ _ Hn), Hin.
  - intros Hn Hs.
    rewrite derive_opt_cases, (is_unset_is_None _ _ Hn).
    now rewrite require_opt_cases, (is_unset_is_None _ _ Hs), Hin.
Qed.

Lemma resolver_end_of_input_witness :
  require_opt "description" py_str_type w_named
  = (Raise EOFError, emit (Prompted "description: ") w_named) /\
  derive_opt "pypi_name" "pypi_username" py_identity w_named
  = (Raise EOFError, emit (Prompted "pypi_username: ") w_named).
Proof.
  destruct (resolver_end_of_input w_named "description" "description"
              py_str_type py_identity eq_refl) as [H1 _].
  destruct (resolver_end_of_input w_named "pypi_name" "pypi_username"
              py_str_type py_identity eq_refl) as [_ H2].
  split; [apply H1 | apply H2]; reflexivity.
Defined.

(** X2. When the conversion of the typed line raises, [require_opt] passes the
    exception on: the line is used up, the field stays unset, and asking
    again prompts again. *)
Theorem require_opt_conversion_error w name
    (ty : string -> outcome pyval) (line : string) (rest : list string) (e : exn) :
  is_unset w name -> stdin w = line :: rest -> ty line = Raise e ->
  let w' := with_stdin rest (emit (Prompted (name +:+ ": ")) w) in
  require_opt name ty w = (Raise e, w') /\
  is_unset w' name /\
  console (require_opt name ty w').2
  = console w ++ [Prompted (name +:+ ": "); Prompted (name +:+ ": ")].
Proof.
  intros Hn Hin Hty w'.
  assert (Hn' : is_unset w' name) by exact Hn.
  split; [|split; [exact Hn'|]].
  - now rewrite require_opt_cases, (is_unset_is_None _ _ Hn), Hin, Hty.
  - rewrite require_opt_cases, (is_unset_is_None _ _ Hn').
    subst w'. simpl.
    destruct rest as [|l rest']; [|destruct (ty l)]; simpl;
      now rewrite <- app_assoc.
Qed.

Lemma require_opt_conversion_error_witness :
  require_opt "quiet" sample_yes_no w_maybe
  = (Raise ValueError, with_stdin ["yes"] (emit (Prompted "quiet: ") w_maybe)) /\
  is_unset (with_stdin ["yes"] (emit (Prompted "quiet: ") w_maybe)) "quiet" /\
  console (require_opt "quiet" sample_yes_no
             (with_stdin ["yes"] (emit (Prompted "quiet: ") w_maybe))).2
  = console w_maybe ++ [Prompted "quiet: "; Prompted "quiet: "].
Proof.
  apply (require_opt_conversion_error w_maybe "quiet" sample_yes_no
           "maybe" ["yes"] ValueError); reflexivity.
Defined.

(** X3. When the transform raises, [derive_opt] passes the exception on and
    stores nothing under the field; the source it resolved on the way stays
    resolved: a source that was prompted for is stored. *)
Theorem derive_opt_transform_error w name src
    (tr : pyval -> outcome pyval) (e : exn) :
  is_unset w name ->
  (forall sv, is_set w src sv -> tr sv = Raise e ->
              derive_opt name src tr w = (Raise e, w)) /\
  (forall line rest,
      is_unset w src -> stdin w = line :: rest -> tr (PStr line) = Raise e ->
      name <> src ->
      let w' := with_opts (insert src (PStr line))
                  (with_stdin rest (emit (Prompted (src +:+ ": ")) w)) in
      derive_opt name src tr w = (Raise e, w') /\
      is_unset w' name /\ is_set w' src (PStr line)).
Proof.
  intros Hn. split.
  - intros sv Hs Ht.
    rewrite derive_opt_cases, (is_unset_is_None _ _ Hn).
    now rewrite (require_opt_set _ _ _ _ Hs), Ht.
  - intros line rest Hs Hin Ht Hne w'. split; [|split].
    + rewrite derive_opt_cases, (is_unset_is_None _ _ Hn).
      rewrite require_opt_cases, (is_unset_is_None _ _ Hs), Hin.
      unfold py_str_type. now rewrite Ht.
    + unfold is_unset, w'. simpl. rewrite lookup_insert_ne by congruence. exact Hn.
    + split; [|discriminate]. unfold w'. simpl. apply lookup_insert_eq.
Qed.

Lemma derive_opt_transform_error_witness :
  derive_opt "package_snakecase" "package" py_snake_case w_bad_package
  = (Raise AttributeError, w_bad_package).
Proof.
  apply (proj1 (derive_opt_transform_error w_bad_package "package_snakecase"
                  "package" py_snake_case AttributeError eq_refl) (PBool true)).
  - split; [reflexivity | discriminate].
  - reflexivity.
Defined.

(** X4. [require_opt] and [derive_opt] touch nothing but the console, the
    input and the fields they resolve: files and log stay as they are, at
    most one line of input is read, and every other field keeps its
    value. *)
Theorem resolver_frame w name src
    (ty : string -> outcome pyval) (tr : pyval -> outcome pyval) :
  let r := require_opt name ty w in
  let d := derive_opt name src tr w in
  (files r.2 = files w /\ errlog r.2 = errlog w /\
   (stdin r.2 = stdin w \/ exists line, stdin w = line :: stdin r.2) /\
   forall n, n <> name -> opts r.2 !! n = opts w !! n) /\
  (files d.2 = files w /\ errlog d.2 = errlog w /\
   (stdin d.2 = stdin w \/ exists line, stdin w = line :: stdin d.2) /\
   forall n, n <> name -> n <> src -> opts d.2 !! n = opts w !! n).
Proof.
  intros r d.
  assert (Hr : forall nm t, let r := require_opt nm t w in
            files r.2 = files w /\ errlog r.2 = errlog w /\
            (stdin r.2 = stdin w \/ exists line, stdin w = line :: stdin r.2) /\
            forall n, n <> nm -> opts r.2 !! n = opts w !! n).
  { intros nm t. simpl. rewrite require_opt_cases.
    destruct (is_None (default PNone (opts w !! nm))); [|simpl; auto].
    destruct (stdin w) as [|line rest] eqn:Hin; [simpl; auto|].
    destruct (t line); simpl; repeat split; eauto.
    intros n Hne. now rewrite lookup_insert_ne. }
  split; [apply Hr|].
  subst d. rewrite derive_opt_cases.
  destruct (is_None (default PNone (opts w !! name))); [|simpl; auto].
  destruct (Hr src py_str_type) as (Hf & He & Hs & Ho).
  destruct (require_opt src py_str_type w) as [[sv|e] w1]; simpl in *.
  - destruct (tr sv); simpl; repeat split; auto.
    intros n Hn1 Hn2. rewrite lookup_insert_ne by congruence. auto.
  - repeat split; auto.
Qed.

Lemma resolver_frame_other w name n (ty : string -> outcome pyval) :
  n <> name -> opts (require_opt name ty w).2 !! n = opts w !! n.
Proof.
  intros Hne. rewrite require_opt_cases.
  destruct (is_None (default PNone (opts w !! name))); [|reflexivity].
  destruct (stdin w) as [|line rest]; [reflexivity|].
  destruct (ty line); simpl; [|reflexivity]. now rewrite lookup_insert_ne.
Qed.

(** X5. Two fields derived from the same source can be derived in either
    order: the source is resolved once and the options end up the same. *)
Theorem derive_opt_commute w (a b src : string)
    (f g : pyval -> outcome pyval) (sv va vb : pyval) (w1 : world) :
  a <> b -> a <> src -> b <> src ->
  is_unset w a -> is_unset w b ->
  require_opt src py_str_type w = (Ok sv, w1) ->
  f sv = Ok va -> g sv = Ok vb ->
  let w2 := with_opts (insert b vb) (with_opts (insert a va) w1) in
  (derive_opt a src f ;;; derive_opt b src g) w = (Ok vb, w2) /\
  (derive_opt b src g ;;; derive_opt a src f) w = (Ok va, w2).
Proof.
  intros Hab Has Hbs Ha Hb Hreq Hf Hg w2.
  assert (Hset1 : is_set w1 src sv).
  { rewrite require_opt_cases in Hreq.
    destruct (is_None (default PNone (opts w !! src))) eqn:N.
    - destruct (stdin w); [discriminate|]. unfold py_str_type in Hreq.
      injection Hreq as <- <-. split; [simpl; apply lookup_insert_eq | discriminate].
    - destruct (opts w !! src) as [x|] eqn:E; [|discriminate].
      simpl in *. injection Hreq as <- <-.
      split; [exact E|]. intros ->. discriminate. }
  assert (Hother : forall n, n <> src -> opts w1 !! n = opts w !! n).
  { intros n Hn.
    pose proof (resolver_frame_other w src n py_str_type Hn) as H.
    now rewrite Hreq in H. }
  assert (Hstep : forall x y (h k : pyval -> outcome pyval) vx vy,
             x <> y -> x <> src -> y <> src -> is_unset w x -> is_unset w y ->
             h sv = Ok vx -> k sv = Ok vy ->
             (derive_opt x src h ;;; derive_opt y src k) w
             = (Ok vy, with_opts (insert y vy) (with_opts (insert x vx) w1))).
  { intros x y h k vx vy Hxy Hxs Hys Hx Hy Hh Hk. unfold bind.
    rewrite derive_opt_cases, (is_unset_is_None _ _ Hx), Hreq, Hh.
    set (wx := with_opts (insert x vx) w1).
    assert (Hy' : is_unset wx y).
    { unfold is_unset, wx. simpl. rewrite lookup_insert_ne by congruence.
      rewrite Hother by congruence. exact Hy. }
    assert (Hs' : is_set wx src sv).
    { destruct Hset1 as [E V]. split; [|exact V].
      unfold wx. simpl. now rewrite lookup_insert_ne by congruence. }
    rewrite derive_opt_cases, (is_unset_is_None _ _ Hy').
    now rewrite (require_opt_set _ _ _ _ Hs'), Hk. }
  split.
  - now apply Hstep.
  - rewrite (Hstep b a g f vb va) by (assumption || congruence).
    f_equal. unfold w2, with_opts. simpl. f_equal.
    apply insert_insert_ne. congruence.
Qed.

Lemma derive_opt_commute_witness :
  let w1 := with_opts (insert "package" (PStr "My Cool App"))
              (with_stdin [] (emit (Prompted "package: ") w_fresh)) in
  let w2 := with_opts (insert "package_hyphenated" (PStr "my-cool-app"))
              (with_opts (insert "package_snakecase" (PStr "my_cool_app")) w1) in
  (derive_opt "package_snakecase" "package" py_snake_case ;;;
   derive_opt "package_hyphenated" "package" py_hyphenated) w_fresh
  = (Ok (PStr "my-cool-app"), w2) /\
  (derive_opt "package_hyphenated" "package" py_hyphenated ;;;
   derive_opt "package_snakecase" "package" py_snake_case) w_fresh
  = (Ok (PStr "my_cool_app"), w2).
Proof.
  apply (derive_opt_commute w_fresh "package_snakecase" "package_hyphenated"
           "package" py_snake_case py_hyphenated (PStr "My Cool App"));
    try reflexivity; discriminate.
Defined.

End ResolverEdges.
(** ** More on the name transforms *)

Section NameFacts.

Implicit Types (lower : Unicode.str -> Unicode.str) (s t a b : Unicode.str).
Implicit Types (c : Unicode.codepoint).

Lemma forallb_fmap_all (p : Unicode.codepoint -> bool)
    (f : Unicode.codepoint -> Unicode.codepoint) s :
  (forall c, p (f c) = true) -> forallb p (f <$> s) = true.
Proof.
  intros H. induction s as [|c s IH]; [reflexivity|].
  rewrite fmap_cons. cbn [forallb]. now rewrite H, IH.
Qed.

Lemma fmap_fixed (f : Unicode.codepoint -> Unicode.codepoint) s :
  f <$> s = s <-> forallb (fun c => N.eqb (f c) c) s = true.
Proof.
  induction s as [|c s IH]; [easy|].
  rewrite fmap_cons. cbn [forallb]. rewrite andb_true_iff, <- IH, N.eqb_eq. split.
  - intros [= H1 H2]. now split.
  - intros [-> ->]. reflexivity.
Qed.

Lemma forallb_ext_codepoints (p q : Unicode.codepoint -> bool) s :
  (forall c, p c = q c) -> forallb p s = forallb q s.
Proof.
  intros E. induction s as [|c s IH]; [reflexivity|].
  cbn [forallb]. now rewrite E, IH.
Qed.

Lemma is_ascii_app a b :
  Unicode.is_ascii a = true -> Unicode.is_ascii b = true ->
  Unicode.is_ascii (a ++ b) = true.
Proof.
  unfold Unicode.is_ascii. intros Ha Hb. rewrite forallb_app.
  apply andb_true_iff. now split.
Qed.

(** On ASCII text the two transforms are maps of code points. *)
Lemma snake_case_ascii lower s :
  Unicode.lower_on_ascii lower -> Unicode.is_ascii s = true ->
  Unicode.snake_case lower s
  = (fun c => Unicode.to_underscore (Unicode.ascii_lower_char c)) <$> s.
Proof.
  intros Hl Hs. rewrite snake_case_fmap, (Hl s Hs). unfold Unicode.ascii_lower.
  now rewrite <- list_fmap_compose.
Qed.

Lemma hyphenated_ascii lower s :
  Unicode.lower_on_ascii lower -> Unicode.is_ascii s = true ->
  Unicode.hyphenated lower s
  = (fun c => Unicode.to_hyphen (Unicode.ascii_lower_char c)) <$> s.
Proof.
  intros Hl Hs. rewrite hyphenated_fmap, (Hl s Hs). unfold Unicode.ascii_lower.
  now rewrite <- list_fmap_compose.
Qed.

Lemma snake_fixed_plain c :
  N.eqb (Unicode.to_underscore (Unicode.ascii_lower_char c)) c = Unicode.snake_plain c.
Proof. codepoints. Qed.

Lemma hyphen_fixed_plain c :
  N.eqb (Unicode.to_hyphen (Unicode.ascii_lower_char c)) c = Unicode.hyphen_plain c.
Proof. codepoints. Qed.

(** X6. Whatever the input and whatever [str.lower] does, the snake-case
    name holds no space and no hyphen, and the hyphenated name no space and
    no underscore.  For an ASCII name they hold no uppercase letter
    either. *)
Theorem name_transforms_plain lower s :
  (forallb Unicode.snake_separated (Unicode.snake_case lower s) = true /\
   forallb Unicode.hyphen_separated (Unicode.hyphenated lower s) = true) /\
  (Unicode.lower_on_ascii lower -> Unicode.is_ascii s = true ->
   forallb Unicode.snake_plain (Unicode.snake_case lower s) = true /\
   forallb Unicode.hyphen_plain (Unicode.hyphenated lower s) = true).
Proof.
  split.
  - rewrite snake_case_fmap, hyphenated_fmap.
    split; apply forallb_fmap_all; intros c; codepoints.
  - intros Hl Hs. rewrite (snake_case_ascii _ _ Hl Hs), (hyphenated_ascii _ _ Hl Hs).
    split; apply forallb_fmap_all; intros c; codepoints.
Qed.

Lemma name_transforms_plain_witness :
  Unicode.lower_on_ascii Unicode.ascii_lower /\
  Unicode.is_ascii (Unicode.of_string "My Cool-App 2") = true /\
  forallb Unicode.snake_plain
    (Unicode.snake_case Unicode.ascii_lower (Unicode.of_string "My Cool-App 2")) = true /\
  forallb Unicode.hyphen_plain
    (Unicode.hyphenated Unicode.ascii_lower (Unicode.of_string "My Cool-App 2")) = true.
Proof.
  split; [exact ascii_lower_on_ascii|]. split; [reflexivity|].
  exact (proj2 (name_transforms_plain Unicode.ascii_lower
                  (Unicode.of_string "My Cool-App 2"))
           ascii_lower_on_ascii eq_refl).
Defined.

(** X7. An ASCII name is left as it is exactly when it is already in the
    target form: [snake_case] changes nothing iff the name has no uppercase
    letter, space or hyphen, and likewise for [hyphenated]. *)
Theorem name_transforms_fixed_points lower s :
  Unicode.lower_on_ascii lower -> Unicode.is_ascii s = true ->
  (Unicode.snake_case lower s = s <-> forallb Unicode.snake_plain s = true) /\
  (Unicode.hyphenated lower s = s <-> forallb Unicode.hyphen_plain s = true).
Proof.
  intros Hl Hs. rewrite (snake_case_ascii _ _ Hl Hs), (hyphenated_ascii _ _ Hl Hs).
  rewrite !fmap_fixed. split.
  - now rewrite (forallb_ext_codepoints _ Unicode.snake_plain s snake_fixed_plain).
  - now rewrite (forallb_ext_codepoints _ Unicode.hyphen_plain s hyphen_fixed_plain).
Qed.

Lemma name_transforms_fixed_points_witness :
  Unicode.lower_on_ascii Unicode.ascii_lower /\
  Unicode.is_ascii (Unicode.of_string "my_cool_app") = true /\
  Unicode.snake_case Unicode.ascii_lower (Unicode.of_string "my_cool_app")
  = Unicode.of_string "my_cool_app".
Proof.
  split; [exact ascii_lower_on_ascii|]. split; [reflexivity|].
  apply (proj1 (name_transforms_fixed_points Unicode.ascii_lower
                  (Unicode.of_string "my_cool_app") ascii_lower_on_ascii eq_refl)).
  reflexivity.
Defined.

(** X8. Two names have the same snake-case form exactly when they have the
    same hyphenated form, whatever the names and whatever [str.lower]
    does: the import name and the distribution name of a package collide
    together or not at all. *)
Theorem name_transforms_collide lower s t :
  Unicode.snake_case lower s = Unicode.snake_case lower t
  <-> Unicode.hyphenated lower s = Unicode.hyphenated lower t.
Proof.
  rewrite !snake_case_fmap, !hyphenated_fmap. split; intros H.
  - rewrite <- (fmap_fmap_ext Unicode.to_hyphen Unicode.to_underscore _ (lower s)
                  to_hyphen_underscore).
    rewrite <- (fmap_fmap_ext Unicode.to_hyphen Unicode.to_underscore _ (lower t)
                  to_hyphen_underscore).
    now rewrite H.
  - rewrite <- (fmap_fmap_ext Unicode.to_underscore Unicode.to_hyphen _ (lower s)
                  to_underscore_hyphen).
    rewrite <- (fmap_fmap_ext Unicode.to_underscore Unicode.to_hyphen _ (lower t)
                  to_underscore_hyphen).
    now rewrite H.
Qed.

(** X9. On ASCII names both transforms work character by character: the
    transform of a concatenation is the concatenation of the transforms. *)
Theorem name_transforms_app lower a b :
  Unicode.lower_on_ascii lower ->
  Unicode.is_ascii a = true -> Unicode.is_ascii b = true ->
  Unicode.snake_case lower (a ++ b)
  = Unicode.snake_case lower a ++ Unicode.snake_case lower b /\
  Unicode.hyphenated lower (a ++ b)
  = Unicode.hyphenated lower a ++ Unicode.hyphenated lower b.
Proof.
  intros Hl Ha Hb. pose proof (is_ascii_app _ _ Ha Hb) as Hab.
  rewrite !(snake_case_ascii _ _ Hl Ha), !(snake_case_ascii _ _ Hl Hb),
    !(snake_case_ascii _ _ Hl Hab), !(hyphenated_ascii _ _ Hl Ha),
    !(hyphenated_ascii _ _ Hl Hb), !(hyphenated_ascii _ _ Hl Hab).
  split; apply fmap_app.
Qed.

Lemma name_transforms_app_witness :
  Unicode.lower_on_ascii Unicode.ascii_lower /\
  Unicode.snake_case Unicode.ascii_lower
    (Unicode.of_string "My Cool" ++ Unicode.of_string " App")
  = Unicode.of_string "my_cool" ++ Unicode.of_string "_app".
Proof.
  split; [exact ascii_lower_on_ascii|].
  destruct (name_transforms_app Unicode.ascii_lower
              (Unicode.of_string "My Cool") (Unicode.of_string " App")
              ascii_lower_on_ascii eq_refl eq_refl) as [-> _].
  reflexivity.
Defined.

End NameFacts.

(** ** More on the column layout *)

Section ColumnizeFacts.

Lemma zip_longest_length {A} (l1 l2 l3 : list A) :
  length (zip_longest l1 l2 l3)
  = Nat.max (length l1) (Nat.max (length l2) (length l3)).
Proof. unfold zip_longest. now rewrite length_map, length_seq. Qed.

Lemma zip_longest_lookup {A} (l1 l2 l3 : list A) (i : nat) :
  i < Nat.max (length l1) (Nat.max (length l2) (length l3)) ->
  zip_longest l1 l2 l3 !! i = Some (l1 !! i, l2 !! i, l3 !! i).
Proof.
  intros Hi. unfold zip_longest.
  change (map ?f ?l) with (f <$> l). rewrite list_lookup_fmap.
  now rewrite lookup_seq_lt.
Qed.

Lemma columns_lengths (lst : list string) :
  let n := length lst / 3 in
  3 * n <= length lst /\
  length (take n lst) = n /\
  length (take n (drop n lst)) = n /\
  length (drop (2 * n) lst) = length lst - 2 * n.
Proof.
  intros n. assert (H : 3 * n <= length lst).
  { unfold n. apply Nat.Div0.mul_div_le. }
  split; [exact H|].
  rewrite !length_take, !length_drop. lia.
Qed.

(** X10. [columnize] gives as many lines as the third column has items, that
    is [N - 2*(N/3)] for [N] items: none for the empty list, and one more
    or two more than [N/3] when [N] is not a multiple of 3. *)
Theorem columnize_length (lst : list string) :
  length (columnize lst) = length lst - 2 * (length lst / 3) /\
  (lst = [] -> columnize lst = []).
Proof.
  split.
  - unfold columnize, columnize_rows. rewrite length_map, columns_slices.
    rewrite zip_longest_length.
    destruct (columns_lengths lst) as (H3 & -> & -> & ->). lia.
  - intros ->. reflexivity.
Qed.

Lemma columnize_length_witness : columnize [] = [].
Proof. apply (proj2 (columnize_length [])). reflexivity. Defined.

Lemma columnize_row (lst : list string) (i : nat) :
  let n := length lst / 3 in
  i < length lst - 2 * n ->
  columnize_rows lst !! i
  = Some (if decide (i < n) then lst !! i else None,
          if decide (i < n) then lst !! (n + i) else None,
          lst !! (2 * n + i)) /\
  columnize lst !! i
  = Some (format_row (if decide (i < n) then lst !! i else None,
                      if decide (i < n) then lst !! (n + i) else None,
                      lst !! (2 * n + i))).
Proof.
  intros n Hi.
  destruct (columns_lengths lst) as (H3 & L1 & L2 & L3). fold n in H3, L1, L2, L3.
  assert (Hrow : columnize_rows lst !! i
                 = Some (if decide (i < n) then lst !! i else None,
                         if decide (i < n) then lst !! (n + i) else None,
                         lst !! (2 * n + i))).
  { unfold columnize_rows. rewrite columns_slices. fold n.
    rewrite zip_longest_lookup by (rewrite L1, L2, L3; lia).
    rewrite lookup_drop. repeat f_equal.
    - case_decide.
      + now apply lookup_take_lt.
      + apply lookup_ge_None. rewrite L1. lia.
    - case_decide.
      + rewrite lookup_take_lt by assumption. apply lookup_drop.
      + apply lookup_ge_None. rewrite L2. lia. }
  split; [exact Hrow|].
  unfold columnize. change (map ?f ?l) with (f <$> l).
  now rewrite list_lookup_fmap, Hrow.
Qed.

(** X11. The rows read the list column by column: row [i] holds the items at
    the positions [i], [N/3 + i] and [2*(N/3) + i], the first two only
    while [i < N/3]; in the last rows, where the third column is longer,
    they are absent. *)
Theorem columnize_rows_lookup (lst : list string) (i : nat) :
  let n := length lst / 3 in
  i < length lst - 2 * n ->
  columnize_rows lst !! i
  = Some (if decide (i < n) then lst !! i else None,
          if decide (i < n) then lst !! (n + i) else None,
          lst !! (2 * n + i)) /\
  columnize lst !! i
  = Some (format_row (if decide (i < n) then lst !! i else None,
                      if decide (i < n) then lst !! (n + i) else None,
                      lst !! (2 * n + i))).
Proof. exact (columnize_row lst i). Qed.

Lemma columnize_rows_lookup_witness :
  columnize_rows SUPPORTED_LICENSES !! 11 = Some (None, None, Some "zlib") /\
  columnize SUPPORTED_LICENSES !! 11 = Some (format_row (None, None, Some "zlib")).
Proof.
  apply (columnize_rows_lookup SUPPORTED_LICENSES 11). vm_compute. lia.
Defined.

(** X12. A list of fewer than three items is not spread over the columns:
    every item gets a line of its own, after the 42 characters of the two
    empty fields. *)
Theorem columnize_short (lst : list string) :
  length lst < 3 ->
  columnize lst = map (fun item => Str.repeat_char " "%char 42 +:+ item) lst.
Proof.
  intros Hlen. apply list_eq. intros i.
  assert (Hn : length lst / 3 = 0) by (apply Nat.div_small; exact Hlen).
  change (map ?f ?l) with (f <$> l). rewrite list_lookup_fmap.
  destruct (decide (i < length lst)) as [Hi|Hi].
  - destruct (columnize_row lst i) as [_ ->]; [rewrite Hn; lia|].
    rewrite Hn. simpl. destruct (lst !! i) as [item|] eqn:E; [reflexivity|].
    apply lookup_ge_None in E. lia.
  - rewrite (proj2 (lookup_ge_None lst i)) by lia. simpl.
    apply lookup_ge_None.
    unfold columnize, columnize_rows. rewrite length_map, columns_slices, Hn.
    rewrite zip_longest_length. simpl. rewrite drop_0. lia.
Qed.

Lemma columnize_short_witness :
  columnize ["mit"; "isc"]
  = ["                                          mit";
     "                                          isc"].
Proof. apply (columnize_short ["mit"; "isc"]). simpl. lia. Defined.

End ColumnizeFacts.

(** ** More on the license renderer *)

Lemma replace_absent (old new s : string) :
  old <> "" -> Str.contains old s = false -> Str.replace old new s = s.
Proof.
  intros Hold Hno. apply not_contains_spec in Hno.
  destruct (replace_pieces old s Hold) as (ps & Hne & Hs & Hall & Hrep).
  destruct ps as [|p [|q rest]]; [congruence| |].
  - rewrite Hrep. simpl in *. congruence.
  - exfalso. apply Hno. rewrite Hs. apply occurs_sep_concat.
Qed.

Section LicenseEdges.

Variable requests_get : string -> outcome response.
Variable json_loads : string -> outcome json.

Ltac run_license :=
  unfold create_license_md, bind, getattr, lift, logger_error, raise, ret, write_file.

(** X13. Whatever the options and the answers of the service are, the license
    renderer leaves options, input and console alone and touches no file
    but [LICENSE]; when it raises it has written nothing, and when it
    returns it has logged nothing. *)
Theorem create_license_md_frame (w : world) :
  let r := create_license_md requests_get json_loads w in
  opts r.2 = opts w /\ stdin r.2 = stdin w /\ console r.2 = console w /\
  (forall path, path <> "LICENSE" -> files r.2 !! path = files w !! path) /\
  (forall e, r.1 = Raise e -> files r.2 = files w) /\
  (r.1 = Ok tt -> errlog r.2 = errlog w).
Proof.
  intros r. subst r. run_license. cbv beta.
  repeat match goal with
         | |- context [match ?x with _ => _ end] =>
             lazymatch type of x with
             | prod _ _ => fail
             | _ => destruct x; simpl
             end
         end;
    repeat (split || intro); try reflexivity; try discriminate.
  now rewrite lookup_insert_ne.
Qed.

(** X14. With status 200, a body that cannot be used stops the renderer before
    anything is written: a decoding error is passed on, a document that is
    not an object gives [TypeError], an object without the key ["text"]
    gives [KeyError], and a ["text"] that is not a string gives
    [AttributeError].  The world is left as it was. *)
Theorem create_license_md_bad_body
    (w : world) (license : pyval) (resp : response) :
  opts w !! "license" = Some license ->
  requests_get (license_url license) = Ok resp ->
  status_code resp = 200%Z ->
  let run := create_license_md requests_get json_loads w in
  (forall e, json_loads (text resp) = Raise e -> run = (Raise e, w)) /\
  (forall s, json_loads (text resp) = Ok (JStr s) -> run = (Raise TypeError, w)) /\
  (json_loads (text resp) = Ok JOther -> run = (Raise TypeError, w)) /\
  (forall members,
      json_loads (text resp) = Ok (JObj members) ->
      (members !! "text" = None -> run = (Raise KeyError, w)) /\
      (forall item, members !! "text" = Some item ->
                    (forall s, item <> JStr s) ->
                    run = (Raise AttributeError, w))).
Proof.
  intros Hlic Hget Hstatus run. subst run.
  split; [|split; [|split]].
  - intros e He. run_license. now rewrite Hlic, Hget, Hstatus, He.
  - intros s Hs. run_license. now rewrite Hlic, Hget, Hstatus, Hs.
  - intros Hs. run_license. now rewrite Hlic, Hget, Hstatus, Hs.
  - intros members Hm. split.
    + intros Hnone. run_license. rewrite Hlic, Hget, Hstatus, Hm. simpl.
      now rewrite Hnone.
    + intros item Hitem Hnot. run_license. rewrite Hlic, Hget, Hstatus, Hm. simpl.
      rewrite Hitem. destruct item as [s| |]; [now destruct (Hnot s)|reflexivity..].
Qed.

(** X15. A fetched text that holds neither placeholder is written to [LICENSE]
    as it is. *)
Theorem create_license_md_verbatim
    (w : world) (license : pyval) (resp : response) (data : json)
    (body : string) (d : datetime) (author : string) :
  opts w !! "license" = Some license ->
  requests_get (license_url license) = Ok resp ->
  status_code resp = 200%Z ->
  json_loads (text resp) = Ok data ->
  json_getitem "text" data = Ok (JStr body) ->
  opts w !! "now" = Some (PDateTime d) ->
  opts w !! "author_name" = Some (PStr author) ->
  Str.contains "[year]" body = false ->
  Str.contains "[fullname]" body = false ->
  create_license_md requests_get json_loads w
  = (Ok tt, with_files (insert "LICENSE" body) w).
Proof.
  intros Hlic Hget Hstatus Hjson Hitem Hnow Hauthor Hy Hf.
  run_license. rewrite Hlic, Hget, Hstatus. cbn -[Str.replace strftime_Y].
  rewrite Hjson, Hitem. cbn -[Str.replace strftime_Y].
  rewrite Hnow. cbn -[Str.replace strftime_Y]. rewrite Hauthor.
  rewrite (replace_absent "[year]" _ body) by (assumption || discriminate).
  rewrite (replace_absent "[fullname]" _ body) by (assumption || discriminate).
  reflexivity.
Qed.

(** X16. When the options lack what the renderer reads, it raises before it
    writes: without [license] nothing happens at all; after a successful
    fetch, a missing [now] or [author_name] gives [AttributeError] and an
    [author_name] that is [None] gives [TypeError]. *)
Theorem create_license_md_missing_option (w : world) :
  (opts w !! "license" = None ->
   create_license_md requests_get json_loads w = (Raise AttributeError, w)) /\
  (forall license resp data body,
      opts w !! "license" = Some license ->
      requests_get (license_url license) = Ok resp ->
      status_code resp = 200%Z ->
      json_loads (text resp) = Ok data ->
      json_getitem "text" data = Ok (JStr body) ->
      (opts w !! "now" = None ->
       create_license_md requests_get json_loads w = (Raise AttributeError, w)) /\
      (forall d, opts w !! "now" = Some (PDateTime d) ->
                 (opts w !! "author_name" = None ->
                  create_license_md requests_get json_loads w
                  = (Raise AttributeError, w)) /\
                 (opts w !! "author_name" = Some PNone ->
                  create_license_md requests_get json_loads w
                  = (Raise TypeError, w)))).
Proof.
  split.
  - intros Hlic. run_license. now rewrite Hlic.
  - intros license resp data body Hlic Hget Hstatus Hjson Hitem. split.
    + intros Hnow. run_license. rewrite Hlic, Hget, Hstatus. simpl.
      rewrite Hjson, Hitem. simpl. now rewrite Hnow.
    + intros d Hnow. split; intros Hauthor; run_license;
        rewrite Hlic, Hget, Hstatus; simpl; rewrite Hjson, Hitem; simpl;
        rewrite Hnow; simpl; now rewrite Hauthor.
Qed.

End LicenseEdges.

Lemma create_license_md_bad_body_witness :
  create_license_md (answer_always {| status_code := 200; text := "[1, 2]" |})
    (decode_always (Ok JOther)) (w_license "mit")
  = (Raise TypeError, w_license "mit") /\
  create_license_md (answer_always {| status_code := 200; text := "{}" |})
    (decode_always (Ok (JObj ∅))) (w_license "mit")
  = (Raise KeyError, w_license "mit").
Proof.
  split.
  - destruct (create_license_md_bad_body
                (answer_always {| status_code := 200; text := "[1, 2]" |})
                (decode_always (Ok JOther)) (w_license "mit") (PStr "mit")
                {| status_code := 200; text := "[1, 2]" |}
                eq_refl eq_refl eq_refl) as (_ & _ & Hother & _).
    exact (Hother eq_refl).
  - destruct (create_license_md_bad_body
                (answer_always {| status_code := 200; text := "{}" |})
                (decode_always (Ok (JObj ∅))) (w_license "mit") (PStr "mit")
                {| status_code := 200; text := "{}" |}
                eq_refl eq_refl eq_refl) as (_ & _ & _ & Hobj).
    destruct (Hobj ∅ eq_refl) as [Hkey _]. exact (Hkey eq_refl).
Defined.

Lemma create_license_md_verbatim_witness :
  create_license_md
    (answer_always {| status_code := 200; text := "unused" |})
    (decode_always (Ok (JObj {[ "text" := JStr "Public domain." ]})))
    (w_license "unlicense")
  = (Ok tt, with_files (insert "LICENSE" "Public domain.") (w_license "unlicense")).
Proof.
  apply (create_license_md_verbatim
           (answer_always {| status_code := 200; text := "unused" |})
           (decode_always (Ok (JObj {[ "text" := JStr "Public domain." ]})))
           (w_license "unlicense") (PStr "unlicense")
           {| status_code := 200; text := "unused" |}
           (JObj {[ "text" := JStr "Public domain." ]})
           "Public domain." sample_now "Jane Doe"); reflexivity.
Defined.

Lemma create_license_md_missing_option_witness :
  create_license_md sample_requests_get sample_json_loads w_named
  = (Raise AttributeError, w_named).
Proof.
  apply (proj1 (create_license_md_missing_option
                  sample_requests_get sample_json_loads w_named)).
  reflexivity.
Defined.

(** ** The template renderers *)

Section RendererSteps.

Lemma resolver_step_raise {A B} (w w1 : world) (e : exn) :
  resolver_step w (@Raise A e, w1) -> resolver_step w (@Raise B e, w1).
Proof.
  intros (evs & Hc & Hkeep & Hle & Hone). exists evs. simpl in *.
  repeat (split; [assumption|]). intros n _. right; eauto.
Qed.

Lemma resolver_step_trans {A B} (w w1 : world) (a : A) (r : outcome B * world) :
  resolver_step w (Ok a, w1) -> resolver_step w1 r -> resolver_step w r.
Proof.
  intros (evs1 & Hc1 & Hkeep1 & Hle1 & Hone1) (evs2 & Hc2 & Hkeep2 & Hle2 & Hone2).
  simpl in *. exists (evs1 ++ evs2).
  split; [now rewrite Hc2, Hc1, <- app_assoc|]. split; [|split].
  - intros n x H. destruct (Hkeep1 n x H) as [H0 H1].
    destruct (Hkeep2 n x H1) as [H2 H3].
    rewrite prompts_for_app, H0, H2. now split.
  - intros n. rewrite prompts_for_app.
    pose proof (Hle1 n) as L1. pose proof (Hle2 n) as L2.
    destruct (prompts_for n evs1) as [|[|k]] eqn:P1; [lia| |lia].
    destruct (Hone1 n P1) as [[x Hx]|[e E]]; [|discriminate].
    destruct (Hkeep2 n x Hx) as [-> _]. lia.
  - intros n. rewrite prompts_for_app. intros Hsum.
    pose proof (Hle1 n) as L1. pose proof (Hle2 n) as L2.
    destruct (prompts_for n evs1) as [|[|k]] eqn:P1; [| |lia].
    + now apply Hone2.
    + destruct (Hone1 n P1) as [[x Hx]|[e E]]; [|discriminate].
      left. exists x. now apply Hkeep2.
Qed.

Lemma step_bind {A B} (m : M A) (k : A -> M B) (w : world) :
  resolver_step w (m w) ->
  (forall a w1, resolver_step w1 (k a w1)) ->
  resolver_step w (bind m k w).
Proof.
  intros Hm Hk. unfold bind. destruct (m w) as [[a|e] w1].
  - exact (resolver_step_trans _ _ _ _ Hm (Hk a w1)).
  - exact (resolver_step_raise _ _ _ Hm).
Qed.

Lemma step_quiet {A} (m : M A) (w : world) :
  opts (m w).2 = opts w -> console (m w).2 = console w ->
  resolver_step w (m w).
Proof.
  intros Ho Hc. exists []. rewrite Hc, app_nil_r. split; [reflexivity|].
  split; [|split].
  - intros n v [E V]. split; [reflexivity|]. split; [now rewrite Ho | exact V].
  - intros n. rewrite prompts_for_nil. lia.
  - intros n. rewrite prompts_for_nil. discriminate.
Qed.

Lemma never_None_str : never_None py_str_type.
Proof. intros x. discriminate. Qed.

Lemma never_None_snake : never_None py_snake_case.
Proof. intros [ | | | ]; discriminate. Qed.

Lemma never_None_hyphen : never_None py_hyphenated.
Proof. intros [ | | | ]; discriminate. Qed.

Ltac steps :=
  repeat first
    [ apply require_opt_step; apply never_None_str
    | apply derive_opt_step; first [apply never_None_snake | apply never_None_hyphen]
    | apply step_quiet; reflexivity
    | apply step_bind; [|intros ? ?] ].

Lemma create_travis_badge_step w : resolver_step w (create_travis_badge w).
Proof. unfold create_travis_badge. steps. Qed.

Lemma create_pypi_badge_step w : resolver_step w (create_pypi_badge w).
Proof. unfold create_pypi_badge. steps. Qed.

Lemma getattr_step name w : resolver_step w (getattr name w).
Proof. apply step_quiet; unfold getattr; destruct (opts w !! name); reflexivity. Qed.

Lemma create_readme_md_step w : resolver_step w (create_readme_md w).
Proof.
  unfold create_readme_md.
  apply step_bind; [apply getattr_step|]. intros ci w1.
  apply step_bind.
  { destruct (py_eq_str ci "travis"); [|steps].
    apply step_bind; [apply create_travis_badge_step|]. intros; steps. }
  intros badges w2.
  apply step_bind; [apply getattr_step|]. intros no_pypi w3.
  apply step_bind.
  { destruct (negb (truthy no_pypi)); [|steps].
    apply step_bind; [apply create_pypi_badge_step|]. intros; steps. }
  intros badges' w4. steps.
Qed.

Lemma create_travis_config_step w : resolver_step w (create_travis_config w).
Proof. unfold create_travis_config. steps. Qed.

Lemma create_ci_config_step w : resolver_step w (create_ci_config w).
Proof.
  unfold create_ci_config.
  apply step_bind; [apply getattr_step|]. intros ci w1.
  destruct (py_eq_str ci "travis"); [apply create_travis_config_step | steps].
Qed.

Lemma create_setup_py_step w : resolver_step w (create_setup_py w).
Proof. unfold create_setup_py. steps. Qed.

Lemma create_package_directory_step makedirs w :
  resolver_step w (create_package_directory makedirs w).
Proof.
  unfold create_package_directory.
  apply step_bind; [steps|]. intros d w1.
  apply step_bind; [destruct d; steps|]. intros dir w2.
  apply step_bind.
  { apply step_quiet; unfold lift; reflexivity. }
  intros; steps.
Qed.

Lemma run_renderers_step makedirs rs w :
  resolver_step w (run_renderers makedirs rs w).
Proof.
  revert w; induction rs as [|r rs IH]; intros w; simpl; [steps|].
  apply step_bind; [|intros; apply IH].
  destruct r; simpl;
    auto using create_readme_md_step, create_package_directory_step,
      create_setup_py_step, create_ci_config_step.
Qed.

End RendererSteps.

(** X17. Whichever renderers run and in whatever order, the questions asked
    between them never repeat: no field is prompted for twice, and a field
    that already holds a value, from the command line or from an earlier
    answer, is neither asked for nor changed. *)
Theorem renderers_prompt_once
    (makedirs : string -> outcome unit) (rs : list renderer) (w : world) :
  let w' := (run_renderers makedirs rs w).2 in
  exists evs,
    console w' = console w ++ evs /\
    (forall name, prompts_for name evs <= 1) /\
    (forall name v, is_set w name v ->
                    prompts_for name evs = 0 /\ is_set w' name v).
Proof.
  intros w'.
  destruct (run_renderers_step makedirs rs w) as (evs & Hc & Hkeep & Hle & _).
  exists evs. auto.
Qed.

Section RendererRuns.

Implicit Types (w : world) (name src : string).

Lemma bind_ok {A B} (m : M A) (k : A -> M B) w (a : A) w1 :
  m w = (Ok a, w1) -> bind m k w = k a w1.
Proof. intros H. unfold bind. now rewrite H. Qed.

Lemma bind_raise {A B} (m : M A) (k : A -> M B) w (e : exn) w1 :
  m w = (Raise e, w1) -> bind m k w = (Raise e, w1).
Proof. intros H. unfold bind. now rewrite H. Qed.

Lemma getattr_some name w v : opts w !! name = Some v -> getattr name w = (Ok v, w).
Proof. intros H. unfold getattr. now rewrite H. Qed.

Lemma require_opt_prompt name w line rest :
  is_unset w name -> stdin w = line :: rest ->
  require_opt name py_str_type w
  = (Ok (PStr line),
     with_opts (insert name (PStr line))
       (with_stdin rest (emit (Prompted (name +:+ ": ")) w))).
Proof.
  intros Hn Hin. now rewrite require_opt_cases, (is_unset_is_None _ _ Hn), Hin.
Qed.

Lemma require_opt_eof name w :
  is_unset w name -> stdin w = [] ->
  require_opt name py_str_type w
  = (Raise EOFError, emit (Prompted (name +:+ ": ")) w).
Proof.
  intros Hn Hin. now rewrite require_opt_cases, (is_unset_is_None _ _ Hn), Hin.
Qed.

Lemma derive_opt_from_set name src tr w sv tv :
  is_unset w name -> is_set w src sv -> tr sv = Ok tv ->
  derive_opt name src tr w = (Ok tv, with_opts (insert name tv) w).
Proof.
  intros Hn Hs Ht. rewrite derive_opt_cases, (is_unset_is_None _ _ Hn).
  now rewrite (require_opt_set _ _ _ _ Hs), Ht.
Qed.

Lemma derive_opt_prompt name src tr w line rest tv :
  is_unset w name -> is_unset w src -> stdin w = line :: rest ->
  tr (PStr line) = Ok tv ->
  derive_opt name src tr w
  = (Ok tv,
     with_opts (insert name tv)
       (with_opts (insert src (PStr line))
          (with_stdin rest (emit (Prompted (src +:+ ": ")) w)))).
Proof.
  intros Hn Hs Hin Ht. rewrite derive_opt_cases, (is_unset_is_None _ _ Hn).
  rewrite (require_opt_prompt _ _ _ _ Hs Hin). now rewrite Ht.
Qed.

Lemma derive_opt_eof name src tr w :
  is_unset w name -> is_unset w src -> stdin w = [] ->
  derive_opt name src tr w = (Raise EOFError, emit (Prompted (src +:+ ": ")) w).
Proof.
  intros Hn Hs Hin. rewrite derive_opt_cases, (is_unset_is_None _ _ Hn).
  now rewrite (require_opt_eof _ _ Hs Hin).
Qed.

(** Conditions on fields of a world built by updates of another. *)
Ltac field :=
  unfold is_set, is_unset in *; simpl;
  repeat first [ rewrite lookup_insert_eq
               | rewrite lookup_insert_ne by discriminate ];
  try split; try assumption; try reflexivity; try discriminate.

(** X18. With the Travis badge and the package index badge wanted and nothing
    answered yet, [create_readme_md] asks for the Travis user name, the
    package name and the description, in this order and each once, and
    writes the README from the answers: the badges, the name as typed in
    the heading and the hyphenated name in the install command. *)
Theorem create_readme_md_fresh w (u p d : string) (rest : list string) (np : pyval) :
  opts w !! "ci" = Some (PStr "travis") ->
  opts w !! "no_pypi" = Some np -> truthy np = false ->
  is_unset w "travis_username" -> is_unset w "package" ->
  is_unset w "package_snakecase" -> is_unset w "package_hyphenated" ->
  is_unset w "description" ->
  stdin w = u :: p :: d :: rest ->
  let r := create_readme_md w in
  let travis := "https://travis-ci.com/" +:+ u +:+ "/" +:+ snake_case p in
  let badges :=
    create_badge "Build Status" (travis +:+ ".svg?branch=master") travis +:+
    create_badge "PyPI" "https://img.shield.io/pypi/v/nine.svg"
      ("https://pypi.org/project/" +:+ hyphenated p) in
  r.1 = Ok tt /\
  stdin r.2 = rest /\
  console r.2 = console w ++ [Prompted "travis_username: "; Prompted "package: ";
                              Prompted "description: "] /\
  files r.2 = <["README.md" := readme_text badges p d (hyphenated p)]> (files w) /\
  opts r.2 = <["description" := PStr d]>
               (<["package_hyphenated" := PStr (hyphenated p)]>
                  (<["package_snakecase" := PStr (snake_case p)]>
                     (<["package" := PStr p]>
                        (<["travis_username" := PStr u]> (opts w))))).
Proof.
  intros Hci Hnp Htr Hu Hp Hps Hph Hd Hin r travis badges.
  assert (Hrun : exists w', r = (Ok tt, w') /\
            stdin w' = rest /\
            console w' = console w ++ [Prompted "travis_username: ";
                                       Prompted "package: ";
                                       Prompted "description: "] /\
            files w' = <["README.md" := readme_text badges p d (hyphenated p)]>
                         (files w) /\
            opts w' = <["description" := PStr d]>
                        (<["package_hyphenated" := PStr (hyphenated p)]>
                           (<["package_snakecase" := PStr (snake_case p)]>
                              (<["package" := PStr p]>
                                 (<["travis_username" := PStr u]> (opts w)))))).
  { eexists. split.
    - subst r. unfold create_readme_md.
      rewrite (bind_ok _ _ _ _ _ (getattr_some _ _ _ Hci)). simpl py_eq_str.
      unfold create_travis_badge at 1.
      erewrite (bind_ok (bind _ _)); cycle 1.
      { erewrite bind_ok;
          [|erewrite bind_ok; [|apply (require_opt_prompt _ _ _ _ Hu Hin)]].
        - reflexivity.
        - erewrite bind_ok; [reflexivity|].
          apply derive_opt_prompt with (tv := PStr (snake_case p)); field. }
      erewrite bind_ok; [|apply getattr_some; field; exact Hnp].
      rewrite Htr. simpl negb. cbv iota.
      erewrite (bind_ok (bind _ _)); cycle 1.
      { erewrite bind_ok; [reflexivity|]. unfold create_pypi_badge.
        erewrite bind_ok; [reflexivity|].
        apply derive_opt_from_set with (sv := PStr p) (tv := PStr (hyphenated p));
          field. }
      erewrite bind_ok; [|reflexivity].
      erewrite bind_ok; [|apply require_opt_set with (v := PStr p); field].
      erewrite bind_ok; [|apply require_opt_prompt; field].
      erewrite bind_ok;
        [|apply derive_opt_set with (v := PStr (hyphenated p)); field].
      unfold file_write. reflexivity.
    - simpl. split; [reflexivity|]. split; [now rewrite <- !app_assoc|].
      split; [|reflexivity].
      rewrite lookup_insert_eq, insert_insert_eq. reflexivity. }
  destruct Hrun as (w' & -> & H1 & H2 & H3 & H4). simpl. auto.
Qed.

Lemma create_readme_md_fresh_witness :
  let r := create_readme_md (w_readme ["jane"; "My Cool App"; "Does things."]) in
  r.1 = Ok tt /\
  stdin r.2 = [] /\
  console r.2 = [Prompted "travis_username: "; Prompted "package: ";
                 Prompted "description: "].
Proof.
  destruct (create_readme_md_fresh
              (w_readme ["jane"; "My Cool App"; "Does things."])
              "jane" "My Cool App" "Does things." [] (PBool false)
              eq_refl eq_refl eq_refl eq_refl eq_refl eq_refl eq_refl eq_refl
              eq_refl) as (H1 & H2 & H3 & _).
  split; [exact H1|]. split; [exact H2 | exact H3].
Defined.

Lemma require_opt_files name (ty : string -> outcome pyval) w :
  files (require_opt name ty w).2 = files w.
Proof.
  rewrite require_opt_cases.
  destruct (is_None (default PNone (opts w !! name))); [|reflexivity].
  destruct (stdin w) as [|line rest]; [reflexivity|].
  now destruct (ty line).
Qed.

Lemma derive_opt_files name src (tr : pyval -> outcome pyval) w :
  files (derive_opt name src tr w).2 = files w.
Proof.
  rewrite derive_opt_cases.
  destruct (is_None (default PNone (opts w !! name))); [|reflexivity].
  pose proof (require_opt_files src py_str_type w) as H.
  destruct (require_opt src py_str_type w) as [[sv|e] w1]; [|exact H].
  now destruct (tr sv).
Qed.

(** Case analysis on every resolver call of the goal, keeping the fact that
    the call leaves the files alone. *)
Ltac resolver_cases :=
  repeat match goal with
         | |- context [require_opt ?n ?t ?W] =>
             let H := fresh "Hfiles" in
             pose proof (require_opt_files n t W) as H;
             destruct (require_opt n t W) as [[?|?] ?]; simpl in H |- *
         | |- context [derive_opt ?n ?s ?t ?W] =>
             let H := fresh "Hfiles" in
             pose proof (derive_opt_files n s t W) as H;
             destruct (derive_opt n s t W) as [[?|?] ?]; simpl in H |- *
         end.

Lemma require_opt_str_returns name w v :
  (require_opt name py_str_type w).1 = Ok v ->
  is_set (require_opt name py_str_type w).2 name v.
Proof.
  rewrite require_opt_cases.
  destruct (is_None (default PNone (opts w !! name))) eqn:N.
  - destruct (stdin w) as [|line rest]; [discriminate|].
    unfold py_str_type. simpl. intros [= <-].
    split; [apply lookup_insert_eq | discriminate].
  - simpl. intros [= <-]. unfold is_set.
    destruct (opts w !! name) as [x|]; [|discriminate].
    split; [reflexivity|]. simpl in N |- *. intros ->. discriminate.
Qed.

Lemma derive_opt_returns name src (tr : pyval -> outcome pyval) w v :
  never_None tr ->
  (derive_opt name src tr w).1 = Ok v -> is_set (derive_opt name src tr w).2 name v.
Proof.
  intros Htr. rewrite derive_opt_cases.
  destruct (is_None (default PNone (opts w !! name))) eqn:N.
  - destruct (require_opt src py_str_type w) as [[value|e] w1]; [|discriminate].
    destruct (tr value) as [derived|e] eqn:T; [|discriminate].
    simpl. intros [= <-]. split; [apply lookup_insert_eq|].
    intros ->. exact (Htr _ T).
  - simpl. intros [= <-]. unfold is_set.
    destruct (opts w !! name) as [x|]; [|discriminate].
    split; [reflexivity|]. simpl in N |- *. intros ->. discriminate.
Qed.

Lemma require_opt_keeps_set name (ty : string -> outcome pyval) w n v :
  is_set w n v -> is_set (require_opt name ty w).2 n v.
Proof. destruct (require_opt_kept name ty w) as (evs & _ & H). apply H. Qed.

Lemma derive_opt_keeps_set name src (tr : pyval -> outcome pyval) w n v :
  is_set w n v -> is_set (derive_opt name src tr w).2 n v.
Proof. destruct (derive_opt_kept name src tr w) as (evs & _ & H). apply H. Qed.

Lemma is_set_with_files f w n v : is_set w n v -> is_set (with_files f w) n v.
Proof. intros H. exact H. Qed.

Lemma is_set_inj w n v v' : is_set w n v -> is_set w n v' -> v = v'.
Proof. intros [E _] [E' _]. congruence. Qed.

Lemma derive_frame_other w name src n (tr : pyval -> outcome pyval) :
  n <> name -> n <> src -> opts (derive_opt name src tr w).2 !! n = opts w !! n.
Proof.
  intros Hn Hs. rewrite derive_opt_cases.
  destruct (is_None (default PNone (opts w !! name))); [|reflexivity].
  pose proof (resolver_frame_other w src n py_str_type Hs) as H.
  destruct (require_opt src py_str_type w) as [[v|e] w1]; simpl in *; [|exact H].
  destruct (tr v); simpl; [|exact H]. now rewrite lookup_insert_ne by congruence.
Qed.

(** Case analysis on every resolver call of the goal, keeping four facts:
    the call leaves the files and the field [no_pypi] alone, the value it
    returns is the value of the field afterwards, and the fields that were
    set stay as they were. *)
Ltac forward_set Hk W :=
  lazymatch W with
  | with_files ?f ?W0 =>
      repeat match goal with
             | H : is_set W0 _ _ |- _ => apply (is_set_with_files f) in H
             end
  | _ => idtac
  end;
  repeat match goal with
         | H : is_set W _ _ |- _ => apply Hk in H
         end.

Ltac resolver_runs :=
  repeat match goal with
         | |- context [require_opt ?n py_str_type ?W] =>
             let Hf := fresh "Hfiles" in
             let Hr := fresh "Hret" in
             let Hk := fresh "Hkeep" in
             let Hn := fresh "Hno" in
             pose proof (require_opt_files n py_str_type W) as Hf;
             pose proof (require_opt_str_returns n W) as Hr;
             pose proof (require_opt_keeps_set n py_str_type W) as Hk;
             pose proof (resolver_frame_other W n "no_pypi" py_str_type
                           ltac:(discriminate)) as Hn;
             forward_set Hk W;
             destruct (require_opt n py_str_type W) as [[?|?] ?];
             simpl in Hf, Hr, Hn |- *; cbn [fst snd] in *; clear Hk;
             try specialize (Hr _ eq_refl)
         | |- context [derive_opt ?n ?s ?t ?W] =>
             let Hf := fresh "Hfiles" in
             let Hr := fresh "Hret" in
             let Hk := fresh "Hkeep" in
             let Hn := fresh "Hno" in
             pose proof (derive_opt_files n s t W) as Hf;
             pose proof (fun v => derive_opt_returns n s t W v
                                    ltac:(first [exact never_None_snake
                                                |exact never_None_hyphen])) as Hr;
             pose proof (derive_opt_keeps_set n s t W) as Hk;
             pose proof (derive_frame_other W n s "no_pypi" t
                           ltac:(discriminate) ltac:(discriminate)) as Hn;
             forward_set Hk W;
             destruct (derive_opt n s t W) as [[?|?] ?];
             simpl in Hf, Hr, Hn |- *; cbn [fst snd] in *; clear Hk;
             try specialize (Hr _ eq_refl)
         end.

(** Two values of one field are the same value. *)
Ltac same_values :=
  repeat match goal with
         | H1 : is_set ?W ?n ?x, H2 : is_set ?W ?n ?y |- _ =>
             tryif constr_eq x y then fail
             else (pose proof (is_set_inj _ _ _ _ H1 H2); subst; clear H2)
         end.

(** X19. A renderer opens its file before it resolves the fields of the
    template.  So when [create_setup_py] or [create_travis_config] raises,
    at a question left unanswered for instance, its file is left empty,
    whatever it held before; when it returns, the file holds the template
    filled with the values that the fields hold after the run, and nothing
    of what it held before.  [create_readme_md] makes the badges before it
    opens the file: a failure leaves the README either untouched or empty,
    and on success the README holds the template filled with the badges
    that were asked for and the values of the fields after the run. *)
Theorem renderers_failure_empties_file w :
  let s := create_setup_py w in
  let t := create_travis_config w in
  let r := create_readme_md w in
  ((forall e, s.1 = Raise e -> files s.2 = <["setup.py" := ""]> (files w)) /\
   (s.1 = Ok tt ->
    exists d p g a e,
      is_set s.2 "description" d /\ is_set s.2 "package_snakecase" p /\
      is_set s.2 "github_username" g /\ is_set s.2 "author_name" a /\
      is_set s.2 "author_email" e /\
      files s.2
      = <["setup.py" := setup_py_text (py_format d) (py_format p) (py_format g)
                          (py_format a) (py_format e)]> (files w))) /\
  ((forall e, t.1 = Raise e -> files t.2 = <[".travis.yml" := ""]> (files w)) /\
   (t.1 = Ok tt ->
    exists u g p,
      is_set t.2 "pypi_username" u /\ is_set t.2 "github_username" g /\
      is_set t.2 "package_snakecase" p /\
      files t.2
      = <[".travis.yml" := travis_text (py_format u) (py_format g) (py_format p)]>
          (files w))) /\
  ((forall e, r.1 = Raise e ->
              files r.2 = files w \/ files r.2 = <["README.md" := ""]> (files w)) /\
   (r.1 = Ok tt ->
    exists ci np p d h travis,
      opts w !! "ci" = Some ci /\ opts w !! "no_pypi" = Some np /\
      is_set r.2 "package" p /\ is_set r.2 "description" d /\
      is_set r.2 "package_hyphenated" h /\
      (if py_eq_str ci "travis" then
         exists u ps,
           is_set r.2 "travis_username" u /\ is_set r.2 "package_snakecase" ps /\
           let url := "https://travis-ci.com/" +:+ py_format u +:+ "/"
                      +:+ py_format ps in
           travis = [create_badge "Build Status" (url +:+ ".svg?branch=master") url]
       else travis = []) /\
      let pypi :=
        if truthy np then []
        else [create_badge "PyPI" "https://img.shield.io/pypi/v/nine.svg"
                ("https://pypi.org/project/" +:+ py_format h)] in
      files r.2
      = <["README.md" := readme_text (String.concat "" (travis ++ pypi))
                           (py_format p) (py_format d) (py_format h)]> (files w))).
Proof.
  intros s t r. subst s t r. split; [|split].
  - unfold create_setup_py, bind, open_w, file_write. cbv beta. resolver_runs;
      (split; [intros; try discriminate; congruence|]);
      intros; try discriminate.
    do 5 eexists. repeat (split; [apply is_set_with_files; eassumption|]).
    simpl. rewrite Hfiles3, Hfiles2, Hfiles1, Hfiles0, Hfiles. simpl.
    rewrite lookup_insert_eq, insert_insert_eq. reflexivity.
  - unfold create_travis_config, bind, open_w, file_write. cbv beta. resolver_runs;
      (split; [intros; try discriminate; congruence|]);
      intros; try discriminate.
    do 3 eexists. repeat (split; [apply is_set_with_files; eassumption|]).
    simpl. rewrite Hfiles1, Hfiles0, Hfiles. simpl.
    rewrite lookup_insert_eq, insert_insert_eq. reflexivity.
  - unfold create_readme_md, create_travis_badge, create_pypi_badge,
      bind, getattr, open_w, file_write, ret. cbv beta.
    destruct (opts w !! "ci") as [ci|]; [|split; [auto|discriminate]].
    destruct (py_eq_str ci "travis") eqn:Hci; resolver_runs;
      repeat match goal with
             | |- context [opts ?W !! "no_pypi"] =>
                 destruct (opts W !! "no_pypi") as [np|] eqn:Hnp
             | |- context [truthy ?v] => destruct (truthy v) eqn:Htruthy; simpl
             end;
      resolver_runs.
    all: split; [intros; try discriminate; try (left; congruence); try (right; congruence)|].
    all: try (intros; discriminate).
    all: simpl; try (left; congruence).
    all: intros _; same_values.
    all: exists ci, np; do 4 eexists.
    all: split; [reflexivity|].
    all: split; [congruence|].
    all: repeat (split; [apply is_set_with_files; eassumption|]).
    all: rewrite Hci.
    all: split;
      [first [reflexivity
             |do 2 eexists; repeat (split; [apply is_set_with_files; eassumption|]);
              reflexivity]|].
    all: rewrite Htruthy; simpl.
    all: repeat match goal with
                | H : files ?a = _ |- context [files ?a] => rewrite H; clear H
                end.
    all: simpl; rewrite lookup_insert_eq, insert_insert_eq; reflexivity.
Qed.

(** X20. At end of input the README renderer stops at its first question.
    With the Travis badge wanted this is the question for the Travis user
    name, asked before the file is opened: the README is untouched.  With no
    badge wanted it is the question for the package name, asked after the
    file was opened: an existing README is emptied. *)
Theorem create_readme_md_end_of_input w (ci np : pyval) :
  opts w !! "ci" = Some ci -> opts w !! "no_pypi" = Some np -> stdin w = [] ->
  (py_eq_str ci "travis" = true -> is_unset w "travis_username" ->
   create_readme_md w = (Raise EOFError, emit (Prompted "travis_username: ") w)) /\
  (py_eq_str ci "travis" = false -> truthy np = true -> is_unset w "package" ->
   create_readme_md w
   = (Raise EOFError,
      emit (Prompted "package: ") (with_files (insert "README.md" "") w))).
Proof.
  intros Hci Hnp Hin. split.
  - intros Ht Hu. unfold create_readme_md.
    rewrite (bind_ok _ _ _ _ _ (getattr_some _ _ _ Hci)), Ht.
    apply bind_raise. apply bind_raise. unfold create_travis_badge.
    apply bind_raise. now apply require_opt_eof.
  - intros Ht Hn Hp. unfold create_readme_md.
    rewrite (bind_ok _ _ _ _ _ (getattr_some _ _ _ Hci)), Ht.
    erewrite bind_ok; [|reflexivity].
    rewrite (bind_ok _ _ _ _ _ (getattr_some _ _ _ Hnp)), Hn. simpl negb. cbv iota.
    erewrite bind_ok; [|reflexivity].
    erewrite bind_ok; [|reflexivity].
    apply bind_raise. now apply require_opt_eof.
Qed.

Lemma create_readme_md_end_of_input_witness :
  create_readme_md (w_readme [])
  = (Raise EOFError, emit (Prompted "travis_username: ") (w_readme [])) /\
  create_readme_md w_old_readme
  = (Raise EOFError,
     emit (Prompted "package: ") (with_files (insert "README.md" "") w_old_readme)).
Proof.
  split.
  - apply (proj1 (create_readme_md_end_of_input (w_readme []) (PStr "travis")
                    (PBool false) eq_refl eq_refl eq_refl)); reflexivity.
  - apply (proj2 (create_readme_md_end_of_input w_old_readme PNone (PBool true)
                    eq_refl eq_refl eq_refl)); reflexivity.
Defined.

(** X21. [create_ci_config] writes a configuration for the value ['travis']
    only: for any other value of [ci] it does nothing at all, and without
    the attribute it raises [AttributeError]. *)
Theorem create_ci_config_other w :
  (opts w !! "ci" = None -> create_ci_config w = (Raise AttributeError, w)) /\
  (forall v, opts w !! "ci" = Some v -> v <> PStr "travis" ->
             create_ci_config w = (Ok tt, w)).
Proof.
  split.
  - intros H. unfold create_ci_config, bind, getattr. now rewrite H.
  - intros v H Hv. unfold create_ci_config.
    rewrite (bind_ok _ _ _ _ _ (getattr_some _ _ _ H)).
    destruct v as [|s| |]; try reflexivity. simpl.
    destruct (String.eqb_spec s "travis") as [->|]; [congruence | reflexivity].
Qed.

Lemma create_ci_config_other_witness :
  create_ci_config w_named = (Raise AttributeError, w_named) /\
  create_ci_config w_old_readme = (Ok tt, w_old_readme).
Proof.
  split.
  - apply (proj1 (create_ci_config_other w_named)). reflexivity.
  - apply (proj2 (create_ci_config_other w_old_readme) PNone);
      [reflexivity | discriminate].
Defined.


Implicit Types (key : string) (v : pyval).

Lemma require_opt_ignores name key v (ty : string -> outcome pyval) w :
  name <> key ->
  require_opt name ty (with_opts (insert key v) w)
  = ((require_opt name ty w).1, with_opts (insert key v) (require_opt name ty w).2).
Proof.
  intros Hne. rewrite !require_opt_cases. simpl.
  rewrite lookup_insert_ne by congruence.
  destruct (is_None (default PNone (opts w !! name))); [|reflexivity].
  destruct (stdin w) as [|line rest]; [reflexivity|].
  destruct (ty line) as [value|e]; [|reflexivity]. simpl.
  f_equal. unfold with_opts. simpl. f_equal. apply insert_insert_ne. congruence.
Qed.

Lemma derive_opt_ignores name src key v (tr : pyval -> outcome pyval) w :
  name <> key -> src <> key ->
  derive_opt name src tr (with_opts (insert key v) w)
  = ((derive_opt name src tr w).1,
     with_opts (insert key v) (derive_opt name src tr w).2).
Proof.
  intros Hn Hs. rewrite !derive_opt_cases. simpl.
  rewrite lookup_insert_ne by congruence.
  destruct (is_None (default PNone (opts w !! name))); [|reflexivity].
  rewrite (require_opt_ignores src key v py_str_type w Hs).
  destruct (require_opt src py_str_type w) as [[sv|e] w1]; [|reflexivity]. simpl.
  destruct (tr sv) as [tv|e]; [|reflexivity]. simpl.
  f_equal. unfold with_opts. simpl. f_equal. apply insert_insert_ne. congruence.
Qed.

Lemma bind_ignores {A B} (m : M A) (k : A -> M B) key v w :
  m (with_opts (insert key v) w) = ((m w).1, with_opts (insert key v) (m w).2) ->
  (forall a w1, k a (with_opts (insert key v) w1)
                = ((k a w1).1, with_opts (insert key v) (k a w1).2)) ->
  bind m k (with_opts (insert key v) w)
  = ((bind m k w).1, with_opts (insert key v) (bind m k w).2).
Proof.
  intros Hm Hk. unfold bind. rewrite Hm.
  destruct (m w) as [[a|e] w1]; simpl; [apply Hk | reflexivity].
Qed.

Lemma setup_py_text_mit (d p g a e : string) :
  Str.occurs "License :: OSI Approved :: MIT License" (setup_py_text d p g a e).
Proof.
  unfold setup_py_text.
  apply (occurs_concat _ _
           ("            " +:+ dquote +:+ "License :: OSI Approved :: MIT License"
            +:+ dquote +:+ ",")).
  - repeat (try (left; reflexivity); right).
  - exists ("            " +:+ dquote), (dquote +:+ ","). reflexivity.
Qed.

(** X22. The setup script does not depend on the license that was chosen:
    [create_setup_py] runs the same way whatever the field [license]
    holds, and the script it writes always carries the classifier of the
    MIT license. *)
Theorem create_setup_py_ignores_license w v :
  create_setup_py (with_opts (insert "license" v) w)
  = ((create_setup_py w).1, with_opts (insert "license" v) (create_setup_py w).2) /\
  ((create_setup_py w).1 = Ok tt ->
   exists text,
     files (create_setup_py w).2 !! "setup.py" = Some text /\
     Str.contains "License :: OSI Approved :: MIT License" text = true).
Proof.
  split.
  - unfold create_setup_py.
    repeat first
      [ apply require_opt_ignores; discriminate
      | apply derive_opt_ignores; discriminate
      | apply bind_ignores; [|intros ? ?]
      | reflexivity ].
  - unfold create_setup_py, bind, open_w, file_write. cbv beta.
    resolver_cases; intros; try discriminate.
    eexists. simpl. rewrite lookup_insert_eq. split; [reflexivity|].
    apply contains_spec. apply occurs_app_r, setup_py_text_mit.
Qed.

Lemma path_join_relative (d name : string) :
  String.prefix "/" name = false ->
  exists base, path_join d name = base +:+ name /\
               forall name', String.prefix "/" name' = false ->
                             path_join d name' = base +:+ name'.
Proof.
  intros Hn. unfold path_join.
  destruct (String.eqb d "").
  - exists "". rewrite Hn. split; [reflexivity|]. now intros name' ->.
  - destruct (String.eqb (String.substring (String.length d - 1) 1 d) "/").
    + exists d. rewrite Hn. split; [reflexivity|]. now intros name' ->.
    + exists (d +:+ "/"). rewrite Hn, sapp_assoc. split; [reflexivity|].
      intros name' ->. now rewrite sapp_assoc.
Qed.

(** X23. With the snake-case name resolved, [create_package_directory] makes
    the directory and writes two different files into it, the initializer
    and the version file, replacing what they held; when the directory
    cannot be made, the exception is passed on and no file is written. *)
Theorem create_package_directory_spec
    (makedirs : string -> outcome unit) w (s : string) :
  is_set w "package_snakecase" (PStr s) ->
  path_join s "__init__.py" <> path_join s "__version__.py" /\
  (makedirs s = Ok tt ->
   create_package_directory makedirs w
   = (Ok tt,
      with_files
        (fun fs =>
           <[path_join s "__version__.py" := "VERSION = '1.0.0'" +:+ newline]>
             (<[path_join s "__init__.py" :=
                  "from .__version__ import VERSION" +:+ newline]> fs))
        w)) /\
  (forall e, makedirs s = Raise e ->
             create_package_directory makedirs w = (Raise e, w)).
Proof.
  intros Hs. split; [|split].
  - destruct (path_join_relative s "__init__.py" eq_refl) as (base & -> & Hother).
    rewrite (Hother "__version__.py" eq_refl).
    intros H%sapp_inv_head. discriminate.
  - intros Hmk. unfold create_package_directory.
    erewrite bind_ok; [|apply derive_opt_set; exact Hs].
    erewrite bind_ok; [|reflexivity].
    unfold bind, lift. rewrite Hmk. unfold open_w, file_write. simpl.
    f_equal. unfold with_files. simpl. f_equal.
    rewrite !lookup_insert_eq. simpl. rewrite !sapp_nil_l.
    now rewrite !insert_insert_eq.
  - intros e Hmk. unfold create_package_directory.
    erewrite bind_ok; [|apply derive_opt_set; exact Hs].
    erewrite bind_ok; [|reflexivity].
    unfold bind, lift. now rewrite Hmk.
Qed.

Lemma create_package_directory_spec_witness :
  create_package_directory makedirs_ok w_derived
  = (Ok tt,
     with_files
       (fun fs =>
          <["my_cool_app/__version__.py" := "VERSION = '1.0.0'" +:+ newline]>
            (<["my_cool_app/__init__.py" :=
                 "from .__version__ import VERSION" +:+ newline]> fs))
       w_derived).
Proof.
  apply (create_package_directory_spec makedirs_ok w_derived "my_cool_app").
  - split; [reflexivity | discriminate].
  - reflexivity.
Defined.

End RendererRuns.

(** ** The script *)

Section Strip.

Implicit Types (s t : string) (c k : ascii).

Lemma lstrip_spec s :
  exists a, s = a +:+ lstrip s /\ Str.forallb is_space a = true.
Proof.
  induction s as [|k s (a & Ha & Hsp)]; [now exists ""|]. simpl.
  destruct (is_space k) eqn:E.
  - exists (String k a). rewrite sapp_cons, <- Ha. simpl. now rewrite E.
  - now exists "".
Qed.

Lemma lstrip_head s c t : lstrip s = String c t -> is_space c = false.
Proof.
  induction s as [|k s IH]; simpl; [discriminate|].
  destruct (is_space k) eqn:E; [exact IH|]. now intros [= <- _].
Qed.

Lemma rstrip_spec s :
  exists b, s = rstrip s +:+ b /\ Str.forallb is_space b = true.
Proof.
  induction s as [|k s (b & Hb & Hsp)]; [now exists ""|]. simpl.
  destruct (rstrip s) as [|k' r] eqn:R.
  - rewrite sapp_nil_l in Hb. subst b. destruct (is_space k) eqn:E.
    + exists (String k s). simpl. now rewrite E.
    + now exists s.
  - exists b. now rewrite !sapp_cons, Hb, sapp_cons.
Qed.

Lemma rstrip_last s t c : rstrip s = t +:+ String c "" -> is_space c = false.
Proof.
  revert t; induction s as [|k s IH]; intros t; simpl.
  - destruct t; discriminate.
  - destruct (rstrip s) as [|k' r] eqn:R.
    + destruct (is_space k) eqn:E; [destruct t; discriminate|].
      destruct t as [|k1 [|k2 t]]; try discriminate. now intros [= <-].
    + destruct t as [|k1 t]; [discriminate|].
      rewrite sapp_cons. intros [= _ H]. exact (IH _ H).
Qed.

Lemma rstrip_head s c t :
  rstrip s = String c t -> exists t', s = String c t'.
Proof.
  destruct (rstrip_spec s) as (b & Hb & _). intros H.
  rewrite H, sapp_cons in Hb. eauto.
Qed.

(** [strip] cuts whitespace off both ends and nothing else: the text is
    the stripped text between two runs of whitespace, and the stripped text
    neither begins nor ends with a whitespace character. *)
Lemma strip_spec s :
  (exists a b, s = a +:+ strip s +:+ b /\
               Str.forallb is_space a = true /\ Str.forallb is_space b = true) /\
  (forall c t, strip s = String c t -> is_space c = false) /\
  (forall t c, strip s = t +:+ String c "" -> is_space c = false).
Proof.
  unfold strip. split; [|split].
  - destruct (lstrip_spec s) as (a & Ha & Hsa).
    destruct (rstrip_spec (lstrip s)) as (b & Hb & Hsb).
    exists a, b. now rewrite <- Hb, <- Ha.
  - intros c t H. destruct (rstrip_head _ _ _ H) as [t' H'].
    exact (lstrip_head _ _ _ H').
  - intros t c. apply rstrip_last.
Qed.

End Strip.

Section MainFacts.

Variable the_parser : parser.
Variable now : datetime.
Variable check_output : list string -> outcome string.
Variable requests_get : string -> outcome response.
Variable json_loads : string -> outcome json.
Variable makedirs : string -> outcome unit.

Implicit Types (w : world).

(** X24. [get_cli_output] returns the output of the command without the
    whitespace around it, the final line feed for instance, and keeps the
    whitespace inside; when the command fails the exception is passed on.
    The world is not touched. *)
Theorem get_cli_output_spec (args : list string) w :
  (forall out,
      check_output args = Ok out ->
      get_cli_output check_output args w = (Ok (strip out), w) /\
      (exists a b, out = a +:+ strip out +:+ b /\
                   Str.forallb is_space a = true /\
                   Str.forallb is_space b = true) /\
      (forall c t, strip out = String c t -> is_space c = false) /\
      (forall t c, strip out = t +:+ String c "" -> is_space c = false)) /\
  (forall e, check_output args = Raise e ->
             get_cli_output check_output args w = (Raise e, w)).
Proof.
  split.
  - intros out H. split; [|apply strip_spec].
    unfold get_cli_output, bind, lift. now rewrite H.
  - intros e H. unfold get_cli_output, bind, lift. now rewrite H.
Qed.

Lemma display_help_exits (p : parser) (topic : string) w :
  exists evs, display_help p topic w = (Raise (SystemExit 0), emit_all evs w).
Proof.
  unfold display_help, bind at 1.
  destruct (String.eqb topic ""); [eexists; reflexivity|].
  destruct (Str.contains "license" topic); [|eexists; reflexivity].
  unfold bind. rewrite print_run, print_all_run, print_run, !emit_all_emit_all.
  eexists. reflexivity.
Qed.

Lemma create_license_md_fails w (license : pyval) (resp : response) :
  opts w !! "license" = Some license ->
  requests_get (license_url license) = Ok resp ->
  status_code resp <> 200%Z ->
  create_license_md requests_get json_loads w
  = (Raise (SystemExit 1), with_errlog "Unable to download license text" w).
Proof.
  intros Hlic Hget Hstatus.
  unfold create_license_md, bind, getattr, lift, logger_error, raise.
  rewrite Hlic, Hget. apply Z.eqb_neq in Hstatus. now rewrite Hstatus.
Qed.

(** The first steps of the script when no help is asked for and the
    author is looked up with [git]. *)
Ltac main_prelude Hhelp Ha He Hname Hemail :=
  unfold main; rewrite (bind_ok _ _ _ _ _ (getattr_some _ _ _ Hhelp));
  do 3 (erewrite bind_ok; [|reflexivity]);
  cbn [opts with_opts]; rewrite lookup_insert_ne by discriminate;
  rewrite Ha; cbn [is_None];
  (erewrite bind_ok;
     [|unfold get_cli_output, bind, lift; rewrite Hname; reflexivity]);
  (erewrite bind_ok; [|reflexivity]);
  cbn [opts with_opts]; rewrite !lookup_insert_ne by discriminate;
  rewrite He; cbn [is_None];
  (erewrite bind_ok;
     [|unfold get_cli_output, bind, lift; rewrite Hemail; reflexivity]).

(** X25. With [--help] the script shows the help and exits with code 0 before
    anything else happens: the options are not changed, no command is run
    and no file is written. *)
Theorem main_help w (help_target : string) :
  opts w !! "help" = Some (PStr help_target) ->
  main the_parser now check_output requests_get json_loads makedirs w = display_help the_parser help_target w /\
  (main the_parser now check_output requests_get json_loads makedirs w).1 = Raise (SystemExit 0) /\
  opts (main the_parser now check_output requests_get json_loads makedirs w).2 = opts w /\ files (main the_parser now check_output requests_get json_loads makedirs w).2 = files w /\
  stdin (main the_parser now check_output requests_get json_loads makedirs w).2 = stdin w.
Proof.
  intros Hhelp.
  assert (H : main the_parser now check_output requests_get json_loads makedirs w = display_help the_parser help_target w).
  { unfold main. rewrite (bind_ok _ _ _ _ _ (getattr_some _ _ _ Hhelp)).
    destruct (display_help_exits the_parser help_target w) as [evs Hd].
    rewrite Hd. apply bind_raise. exact Hd. }
  rewrite H. destruct (display_help_exits the_parser help_target w) as [evs ->].
  repeat split.
Qed.

(** X26. When the license cannot be fetched, the script ends with exit code 1
    right there: whatever else was asked for, no README, package
    directory, setup script or CI configuration is written and no question
    is asked. *)
Theorem main_license_failure w (license : pyval) (resp : response)
    (name email : string) :
  opts w !! "help" = Some PNone ->
  is_unset w "author_name" -> is_unset w "author_email" ->
  check_output ["git"; "config"; "user.name"] = Ok name ->
  check_output ["git"; "config"; "user.email"] = Ok email ->
  opts w !! "license" = Some license -> license <> PNone ->
  requests_get (license_url license) = Ok resp ->
  status_code resp <> 200%Z ->
  (main the_parser now check_output requests_get json_loads makedirs w).1 = Raise (SystemExit 1) /\
  files (main the_parser now check_output requests_get json_loads makedirs w).2 = files w /\
  console (main the_parser now check_output requests_get json_loads makedirs w).2 = console w /\
  stdin (main the_parser now check_output requests_get json_loads makedirs w).2 = stdin w /\
  errlog (main the_parser now check_output requests_get json_loads makedirs w).2 = errlog w ++ ["Unable to download license text"].
Proof.
  intros Hhelp Ha He Hname Hemail Hlic Hnone Hget Hstatus.
  assert (H : exists w', main the_parser now check_output requests_get json_loads makedirs w
                = (Raise (SystemExit 1),
                   with_errlog "Unable to download license text" w') /\
                files w' = files w /\ console w' = console w /\
                stdin w' = stdin w /\ errlog w' = errlog w).
  { eexists. split.
    - main_prelude Hhelp Ha He Hname Hemail.
      erewrite bind_ok; cycle 1.
      { apply getattr_some. cbn [opts with_opts].
        rewrite !lookup_insert_ne by discriminate. exact Hlic. }
      replace (negb (is_None license)) with true
        by (destruct license; try reflexivity; congruence).
      apply bind_raise. eapply create_license_md_fails; [|exact Hget|exact Hstatus].
      cbn [opts with_opts].
      rewrite !lookup_insert_ne by discriminate. exact Hlic.
    - repeat split. }
  destruct H as (w' & -> & H1 & H2 & H3 & H4). simpl.
  rewrite H1, H2, H3, H4. repeat split.
Qed.

(** X27. Even with every artifact suppressed, the script looks up the author
    with [git]: when the lookup succeeds the run ends having stored the
    time, the name and the address, without a question and without a
    file; when the lookup of the name fails, the script fails with it. *)
Theorem main_nothing_selected w (no_readme no_package no_setup ci : pyval) :
  opts w !! "help" = Some PNone ->
  is_unset w "author_name" -> is_unset w "author_email" ->
  opts w !! "license" = Some PNone ->
  opts w !! "no_readme" = Some no_readme -> truthy no_readme = true ->
  opts w !! "no_package" = Some no_package -> truthy no_package = true ->
  opts w !! "no_setup" = Some no_setup -> truthy no_setup = true ->
  opts w !! "ci" = Some ci -> truthy ci = false ->
  (forall name email,
      check_output ["git"; "config"; "user.name"] = Ok name ->
      check_output ["git"; "config"; "user.email"] = Ok email ->
      main the_parser now check_output requests_get json_loads makedirs w
      = (Ok tt,
         with_opts (insert "author_email" (PStr (strip email)))
           (with_opts (insert "author_name" (PStr (strip name)))
              (with_opts (insert "now" (PDateTime now)) w)))) /\
  (forall e,
      check_output ["git"; "config"; "user.name"] = Raise e ->
      main the_parser now check_output requests_get json_loads makedirs w
      = (Raise e, with_opts (insert "now" (PDateTime now)) w)).
Proof.
  intros Hhelp Ha He Hlic Hr Hrt Hp Hpt Hs Hst Hci Hcit. split.
  - intros name email Hname Hemail.
    main_prelude Hhelp Ha He Hname Hemail.
    erewrite bind_ok; cycle 1.
    { apply getattr_some. cbn [opts with_opts].
      rewrite !lookup_insert_ne by discriminate. exact Hlic. }
    cbn [is_None negb]. erewrite bind_ok; [|reflexivity].
    erewrite bind_ok; cycle 1.
    { apply getattr_some. cbn [opts with_opts].
      rewrite !lookup_insert_ne by discriminate. exact Hr. }
    rewrite Hrt. cbn [negb]. erewrite bind_ok; [|reflexivity].
    erewrite bind_ok; cycle 1.
    { apply getattr_some. cbn [opts with_opts].
      rewrite !lookup_insert_ne by discriminate. exact Hp. }
    rewrite Hpt. cbn [negb]. erewrite bind_ok; [|reflexivity].
    erewrite bind_ok; cycle 1.
    { apply getattr_some. cbn [opts with_opts].
      rewrite !lookup_insert_ne by discriminate. exact Hs. }
    rewrite Hst. cbn [negb]. erewrite bind_ok; [|reflexivity].
    erewrite bind_ok; cycle 1.
    { apply getattr_some. cbn [opts with_opts].
      rewrite !lookup_insert_ne by discriminate. exact Hci. }
    rewrite Hcit. reflexivity.
  - intros e Hname. unfold main.
    rewrite (bind_ok _ _ _ _ _ (getattr_some _ _ _ Hhelp)).
    do 3 (erewrite bind_ok; [|reflexivity]).
    cbn [opts with_opts]. rewrite lookup_insert_ne by discriminate.
    rewrite Ha. cbn [is_None].
    apply bind_raise. unfold get_cli_output, bind, lift. now rewrite Hname.
Qed.

End MainFacts.

Lemma main_help_witness :
  (main {| format_help := "usage: bootstrap.py" |} sample_now sample_check_output
     sample_requests_get sample_json_loads makedirs_ok
     (parsed (PStr "") PNone PNone false)).1
  = Raise (SystemExit 0).
Proof.
  apply (main_help {| format_help := "usage: bootstrap.py" |} sample_now
           sample_check_output sample_requests_get sample_json_loads makedirs_ok
           (parsed (PStr "") PNone PNone false) "").
  reflexivity.
Defined.

Lemma main_license_failure_witness :
  let r := main {| format_help := "usage: bootstrap.py" |} sample_now
             sample_check_output sample_requests_get sample_json_loads makedirs_ok
             (parsed PNone (PStr "bogus") (PStr "travis") false) in
  r.1 = Raise (SystemExit 1) /\ files r.2 = ∅ /\ console r.2 = [].
Proof.
  destruct (main_license_failure {| format_help := "usage: bootstrap.py" |}
              sample_now sample_check_output sample_requests_get
              sample_json_loads makedirs_ok
              (parsed PNone (PStr "bogus") (PStr "travis") false) (PStr "bogus")
              {| status_code := 404; text := "Not Found" |}
              ("Jane Doe" +:+ newline) ("jane@example.org" +:+ newline)
              eq_refl eq_refl eq_refl eq_refl eq_refl eq_refl
              ltac:(discriminate) eq_refl ltac:(discriminate))
    as (H1 & H2 & H3 & _).
  split; [exact H1|]. split; [exact H2 | exact H3].
Defined.

Lemma main_nothing_selected_witness :
  main {| format_help := "usage: bootstrap.py" |} sample_now sample_check_output
    sample_requests_get sample_json_loads makedirs_ok (parsed PNone PNone PNone true)
  = (Ok tt,
     with_opts (insert "author_email" (PStr "jane@example.org"))
       (with_opts (insert "author_name" (PStr "Jane Doe"))
          (with_opts (insert "now" (PDateTime sample_now))
             (parsed PNone PNone PNone true)))) /\
  main {| format_help := "usage: bootstrap.py" |} sample_now no_check_output
    sample_requests_get sample_json_loads makedirs_ok (parsed PNone PNone PNone true)
  = (Raise RequestException,
     with_opts (insert "now" (PDateTime sample_now)) (parsed PNone PNone PNone true)).
Proof.
  split.
  - apply (proj1 (main_nothing_selected {| format_help := "usage: bootstrap.py" |}
                    sample_now sample_check_output sample_requests_get
                    sample_json_loads makedirs_ok (parsed PNone PNone PNone true)
                    (PBool true) (PBool true) (PBool true) PNone
                    eq_refl eq_refl eq_refl eq_refl eq_refl eq_refl eq_refl
                    eq_refl eq_refl eq_refl eq_refl eq_refl)
             ("Jane Doe" +:+ newline) ("jane@example.org" +:+ newline));
      reflexivity.
  - apply (proj2 (main_nothing_selected {| format_help := "usage: bootstrap.py" |}
                    sample_now no_check_output sample_requests_get
                    sample_json_loads makedirs_ok (parsed PNone PNone PNone true)
                    (PBool true) (PBool true) (PBool true) PNone
                    eq_refl eq_refl eq_refl eq_refl eq_refl eq_refl eq_refl
                    eq_refl eq_refl eq_refl eq_refl eq_refl)
             RequestException).
    reflexivity.
Defined.

Lemma get_cli_output_spec_witness :
  get_cli_output sample_check_output ["git"; "config"; "user.name"] w_fresh
  = (Ok "Jane Doe", w_fresh) /\
  get_cli_output no_check_output ["git"; "config"; "user.name"] w_fresh
  = (Raise RequestException, w_fresh).
Proof.
  split.
  - apply (proj1 (get_cli_output_spec sample_check_output
                    ["git"; "config"; "user.name"] w_fresh)
             ("Jane Doe" +:+ newline) eq_refl).
  - apply (proj2 (get_cli_output_spec no_check_output
                    ["git"; "config"; "user.name"] w_fresh)
             RequestException eq_refl).
Defined.
